(** * Word-PDF service: a shallow embedding of [server.js]

    The service converts DOCX documents to PDF by running LibreOffice as a
    child process.  This development embeds

    - [convertDocxToPdf] of [server.js]: the child-process supervisor with
      its deadline timer and its two-step kill (module [Supervisor]);
    - [convertDocxToPdfFromUrl], the callback of [/api/convert-sync] and
      the webhook continuation of [/api/convert] (module [Service]);
    - the class [ConversionQueue] (module [Queue]);
    - the request-level concurrency of the two endpoints (module [Server]);
    - the earlier [convertDocxToPdf] that the repository still carries,
      which runs LibreOffice through [exec] (module [Legacy]).

    Asynchronous code is modelled by explicit state: event handlers are
    functions on a state record, awaited operations are steps of a state
    and error monad, and everything the runtime decides (network replies,
    what the child process does, timers, directory order) comes from an
    environment record or from the event list. *)

From stdpp Require Import gmap strings list fin_maps pretty.
From Stdlib Require Import ZArith Lia Ascii.

Local Open Scope Z_scope.

(** ** JavaScript values used by the service *)

(** A [Buffer] is a byte string. *)
Definition Buffer := string.

(** [buf.length] *)
Definition buffer_length (b : Buffer) : Z := Z.of_nat (String.length b).

(** [buf.toString('base64')], kept symbolic: the encoding itself plays no
    role in the service's control flow. *)
Inductive Base64 := toBase64 (b : Buffer).

(** [s.startsWith(p)] *)
Definition startsWith (s p : string) : bool := String.prefix p s.

(** [s.endsWith(p)] *)
Definition endsWith (s p : string) : bool :=
  String.prefix (String.rev p) (String.rev s).

(** [s || 'none']: the empty string is falsy. *)
Definition or_none (s : string) : string :=
  match s with EmptyString => "none" | _ => s end.

(** [xs.join(', ')] *)
Fixpoint join_comma (xs : list string) : string :=
  match xs with
  | [] => EmptyString
  | [x] => x
  | x :: rest => x +:+ ", " +:+ join_comma rest
  end.

(** The double-quote character as a string. *)
Definition dquote : string :=
  String (Ascii.Ascii false true false false false true false false) EmptyString.

(** [os.tmpdir()] and [path.join(dir, name)] on the deployment platform. *)
Definition tmpdir : string := "/tmp".
Definition path_join (dir name : string) : string := dir +:+ "/" +:+ name.

(** The directory in which the last component of a path is looked up: what
    stands before the last slash. *)
Fixpoint has_slash (p : string) : bool :=
  match p with
  | EmptyString => false
  | String c rest => if Ascii.eqb c "/"%char then true else has_slash rest
  end.

Fixpoint parent (p : string) : string :=
  match p with
  | EmptyString => EmptyString
  | String c rest => if has_slash rest then String c (parent rest) else EmptyString
  end.

(** A template hole [${x}] for a nullable number. *)
Definition show_code (c : option Z) : string :=
  match c with Some n => pretty n | None => "null" end.

Inductive Signal := SIGTERM | SIGKILL.

Definition show_signal (s : option Signal) : string :=
  match s with
  | Some SIGTERM => "SIGTERM"
  | Some SIGKILL => "SIGKILL"
  | None => "null"
  end.

(** ** Errors

    Every error the service raises is [new Error(message)]; the
    constructors below keep the values that the message is built from, and
    [message] renders the template string of the source. *)
Inductive JsError :=
  | ConversionTimeout (timeoutMs duration : Z) (stdout stderr : string)
  | ConversionFailed (code : option Z) (duration : Z) (stderr stdout : string)
  | PdfNotGenerated (outputDir : string) (files : list string)
  | InvalidDocxUrl
  | DownloadFailed (status : Z) (statusText : string)
  | DownloadFailedSync (status : Z)
  | LegacyPdfNotGenerated (files : list string)
  | RuntimeError (name msg : string).   (* raised by Node or node-fetch *)

Definition message (e : JsError) : string :=
  match e with
  | ConversionTimeout t d out err =>
      "LibreOffice conversion timeout after " +:+ pretty t +:+ "ms. Duration: "
      +:+ pretty d +:+ "ms. Stdout: " +:+ or_none out +:+ ". Stderr: "
      +:+ or_none err
  | ConversionFailed c d err out =>
      "LibreOffice conversion failed: code " +:+ show_code c +:+ ", duration: "
      +:+ pretty d +:+ "ms, stderr: " +:+ or_none err +:+ ", stdout: "
      +:+ or_none out
  | PdfNotGenerated dir files =>
      "PDF file not generated. Output directory: " +:+ dir +:+ ", files: "
      +:+ join_comma files
  | InvalidDocxUrl => "Invalid DOCX URL: Only absolute URLs are supported"
  | DownloadFailed st txt =>
      "Failed to download DOCX: " +:+ pretty st +:+ " " +:+ txt
  | DownloadFailedSync st => "Failed to download DOCX: " +:+ pretty st
  | LegacyPdfNotGenerated files =>
      "PDF file not generated. Files in output dir: " +:+ join_comma files
  | RuntimeError _ msg => msg
  end.

(** ** The file system

    Paths are strings.  A directory node keeps the names of its entries in
    the order [readdir] reports them, which the operating system chooses;
    the entries themselves live under their joined paths. *)
Inductive Node :=
  | File (content : Buffer)
  | Dir (entries : list string).

Abbreviation FS := (gmap string Node).

Definition exists_on_disk (fs : FS) (p : string) : bool :=
  match fs !! p with Some _ => true | None => false end.

Definition drop_entry (p dir : string) (n : Node) : option Node :=
  Some match n with
       | Dir names =>
           Dir (filter (λ name, path_join dir name ≠ p) names)
       | File c => File c
       end.

(** Removing one path: the node goes, and so does its name in the listing
    of the directory that holds it. *)
Definition remove_path (p : string) (fs : FS) : FS :=
  map_imap (drop_entry p) (delete p fs).

(** Adding a file to a directory that exists appends its name to the
    listing unless it is already there. *)
Definition add_entry (dir name : string) (c : Buffer) (fs : FS) : FS :=
  match fs !! dir with
  | Some (Dir names) =>
      <[path_join dir name := File c]>
        (<[dir := Dir (if decide (name ∈ names) then names
                       else names ++ [name])]> fs)
  | _ => fs
  end.

(** ** Console output, by call site *)
Inductive LogLine :=
  | LogInputWritten (inputFile : string) (bytes : Z)
  | LogStdout (chunk : string)
  | LogStderr (chunk : string)
  | LogTimeoutKill (timeoutMs : Z)
  | LogForceKill
  | LogCleanupInputFailed
  | LogCompleted (duration : Z) (code : option Z) (signal : option Signal)
  | LogExitFailure (code : option Z) (stdout stderr : string)
  | LogPdfGenerated (pdfFile : string) (size : Z)
  | LogSpawnError (e : JsError)
  | LogDownloading (url : string)
  | LogDownloaded (bytes : Z)
  | LogRunning
  | LogPdfRead (bytes : Z)
  | LogCleanedUp
  | LogCleanupWarning (e : JsError)
  | LogCleanupError (e : JsError)
  | LogSyncError (e : JsError)
  | LogConversionCompleted (orderId : string) (bytes : Z) (callbackUrl : string)
  | LogWebhookSent (orderId : string)
  | LogWebhookFailed (status : Z) (errorText : string)
  | LogWebhookError (e : JsError)
  | LogConversionFailed (orderId : string) (e : JsError)
  | LogFailureWebhookSent (orderId : string)
  | LogFailureWebhookError (e : JsError)
  | LogLegacyCommand (command : string).

(** The console lines that report a webhook that could not be delivered. *)
Definition reports_delivery_failure (l : LogLine) : bool :=
  match l with
  | LogWebhookFailed _ _ | LogWebhookError _ | LogFailureWebhookError _ => true
  | _ => false
  end.

(** ** What leaves the process *)

(** How a child process is started: [spawn(file, args)] hands the operating
    system an argument vector; [exec(command)] hands a shell one string to
    interpret. *)
Inductive ProcessStart :=
  | spawn (file : string) (args : list string)
  | exec (command : string).

(** The body of a webhook POST, [JSON.stringify] of one of two objects. *)
Inductive WebhookBody :=
  | BodyCompleted (orderId jobId : string) (pdfBuffer : Base64)
  | BodyFailed (orderId jobId : string) (error : string).

Inductive Request :=
  | GET (url : string)
  | POST (url : string) (secretHeader : string) (body : WebhookBody).

(** The calls by which the service reaches outside itself: [fetch] with a
    request, the start of a child process, a signal to the child. *)
Inductive Effect :=
  | EFetch (r : Request)
  | EStart (p : ProcessStart)
  | EKill (s : Signal).

Definition request_url (r : Request) : string :=
  match r with GET url | POST url _ _ => url end.

Definition is_post (e : Effect) : bool :=
  match e with EFetch (POST _ _ _) => true | _ => false end.

Definition is_start (e : Effect) : bool :=
  match e with EStart _ => true | _ => false end.

(** ** The world the service runs in *)
Record World := mkWorld {
  now : Z;                    (* Date.now() *)
  fs : FS;
  console : list LogLine;     (* oldest first *)
  effects : list Effect       (* oldest first *)
}.

Definition set_now (t : Z) (w : World) : World :=
  mkWorld t (fs w) (console w) (effects w).
Definition set_fs (f : FS) (w : World) : World :=
  mkWorld (now w) f (console w) (effects w).
Definition say (l : LogLine) (w : World) : World :=
  mkWorld (now w) (fs w) (console w ++ [l]) (effects w).
Definition emit (e : Effect) (w : World) : World :=
  mkWorld (now w) (fs w) (console w) (effects w ++ [e]).

(** ** Promises and awaited computations *)

(** A settled promise. *)
Inductive Settlement (A : Type) :=
  | Fulfilled (a : A)
  | Rejected (e : JsError).
Arguments Fulfilled {A} a.
Arguments Rejected {A} e.

(** What awaiting an asynchronous computation gives: a value, an
    exception, or nothing at all when the promise never settles. *)
Inductive Completion (A : Type) :=
  | Returned (a : A)
  | Threw (e : JsError)
  | Pending.
Arguments Returned {A} a.
Arguments Threw {A} e.
Arguments Pending {A}.

Definition await {A} (p : option (Settlement A)) : Completion A :=
  match p with
  | Some (Fulfilled a) => Returned a
  | Some (Rejected e) => Threw e
  | None => Pending
  end.

Definition M (A : Type) : Type := World → Completion A * World.

Global Instance M_ret : MRet M := λ A a w, (Returned a, w).
Global Instance M_bind : MBind M := λ A B k m w,
  match m w with
  | (Returned a, w') => k a w'
  | (Threw e, w') => (Threw e, w')
  | (Pending, w') => (Pending, w')
  end.

Definition throw {A} (e : JsError) : M A := λ w, (Threw e, w).

(** [try { m } catch (e) { h e }] *)
Definition try_catch {A} (m : M A) (h : JsError → M A) : M A := λ w,
  match m w with
  | (Threw e, w') => h e w'
  | r => r
  end.

Definition console_log (l : LogLine) : M unit := λ w, (Returned (), say l w).
Definition perform (e : Effect) : M unit := λ w, (Returned (), emit e w).
Definition Date_now : M Z := λ w, (Returned (now w), w).

(** ** Events of one supervised conversion

    After [spawn], the event loop delivers these to the handlers that
    [convertDocxToPdf] installed. *)
Inductive ExitStatus :=
  | ExitCode (n : Z)
  | ExitSignal (s : Signal).

Inductive Event :=
  | Elapse (ms : Z)                       (* time passes *)
  | StdoutData (chunk : string)           (* child.stdout 'data' *)
  | StderrData (chunk : string)           (* child.stderr 'data' *)
  | ChildWrites (name : string) (content : Buffer)
                                          (* the child creates a file in the
                                             directory given by --outdir *)
  | DeadlineFires                         (* the timer kept in timeoutId *)
  | GraceFires                            (* the inner 5000 ms timer *)
  | Exits (st : ExitStatus)               (* the process is gone *)
  | Closes                                (* child 'close' *)
  | ErrorEvent (e : JsError).             (* child 'error' *)

(** ** The environment: everything the runtime decides *)
Inductive FetchReply :=
  | NetworkError (e : JsError)
  | Response (status : Z) (statusText : string) (body : Buffer).

(** [response.ok] *)
Definition response_ok (status : Z) : bool :=
  (200 <=? status) && (status <=? 299).

Inductive ExecReply :=
  | ExecDone (stdout stderr : string) (written : list (string * string * Buffer))
  | ExecFailed (e : JsError).

Record Env := mkEnv {
  network_reply : Request → FetchReply;   (* what the network makes of a
                                             request that is sent *)
  schedule : ProcessStart → list Event;   (* what the event loop delivers
                                             after this spawn *)
  shell_reply : string → ExecReply;       (* what exec(command) yields *)
  random36 : Z → string;                  (* Math.random().toString(36)
                                             .substr(2, 9) *)
  writable : string → bool;               (* can this path be created *)
  RENDER_WEBHOOK_SECRET : option string   (* process.env *)
}.

(** A URL has a scheme only if a colon occurs in it. *)
Fixpoint has_colon (u : string) : bool :=
  match u with
  | EmptyString => false
  | String c rest => if Ascii.eqb c ":"%char then true else has_colon rest
  end.

(** How the promise of [fetch(r)] settles.  node-fetch parses the URL
    before it opens a connection, and a URL in which it finds no scheme,
    such as a bare word, makes it reject with a [TypeError] without sending
    anything; every other request is up to the network. *)
Definition fetch_reply (env : Env) (r : Request) : FetchReply :=
  if has_colon (request_url r) then network_reply env r
  else NetworkError (RuntimeError "TypeError" "Only absolute URLs are supported").

(** ** [fs.promises] *)
Definition fs_error (syscall path : string) : JsError :=
  RuntimeError "Error" (syscall +:+ " '" +:+ path +:+ "'").

Section FileSystem.
Context (env : Env).

(** The directory that is to hold [p] has to be there: [os.tmpdir()]
    itself, or a directory of the map. *)
Definition parent_missing (f : FS) (p : string) : option JsError :=
  match f !! parent p with
  | Some (Dir _) => None
  | Some (File _) => Some (fs_error "ENOTDIR: open" p)
  | None =>
      if bool_decide (parent p = tmpdir) then None
      else Some (fs_error "ENOENT: open" p)
  end.

(** [fs.writeFile(p, data)]: the file is created or replaced; its
    directory is not created. *)
Definition writeFile (p : string) (data : Buffer) : M unit := λ w,
  match parent_missing (fs w) p with
  | Some e => (Threw e, w)
  | None =>
      if writable env p then
        match fs w !! p with
        | Some (Dir _) => (Threw (fs_error "EISDIR: open" p), w)
        | _ => (Returned (), set_fs (<[p := File data]> (fs w)) w)
        end
      else (Threw (fs_error "ENOSPC: open" p), w)
  end.

(** [fs.mkdir(p, { recursive: true })].  Of the directories that the call
    creates, the map records [p] itself: the service gives it names of its
    own making, and never looks into a directory above one of them. *)
Definition mkdir (p : string) : M unit := λ w,
  match fs w !! p with
  | Some (Dir _) => (Returned (), w)
  | Some (File _) => (Threw (fs_error "EEXIST: mkdir" p), w)
  | None =>
      if writable env p then (Returned (), set_fs (<[p := Dir []]> (fs w)) w)
      else (Threw (fs_error "ENOSPC: mkdir" p), w)
  end.
End FileSystem.

Definition readdir (p : string) : M (list string) := λ w,
  match fs w !! p with
  | Some (Dir names) => (Returned names, w)
  | Some (File _) => (Threw (fs_error "ENOTDIR: scandir" p), w)
  | None => (Threw (fs_error "ENOENT: scandir" p), w)
  end.

(** [fs.stat(p)], of which only [size] is used. *)
Definition stat (p : string) : M Z := λ w,
  match fs w !! p with
  | Some (File c) => (Returned (buffer_length c), w)
  | Some (Dir _) => (Returned 4096, w)
  | None => (Threw (fs_error "ENOENT: stat" p), w)
  end.

Definition readFile (p : string) : M Buffer := λ w,
  match fs w !! p with
  | Some (File c) => (Returned c, w)
  | Some (Dir _) => (Threw (fs_error "EISDIR: read" p), w)
  | None => (Threw (fs_error "ENOENT: open" p), w)
  end.

Definition unlink (p : string) : M unit := λ w,
  match fs w !! p with
  | Some (File _) => (Returned (), set_fs (remove_path p (fs w)) w)
  | Some (Dir _) => (Threw (fs_error "EISDIR: unlink" p), w)
  | None => (Threw (fs_error "ENOENT: unlink" p), w)
  end.

(** [fs.rm(p, { recursive: true, force: true })]: a missing path is not an
    error; a directory goes together with the entries it lists. *)
Definition rm (p : string) : M unit := λ w,
  match fs w !! p with
  | None => (Returned (), w)
  | Some (File _) => (Returned (), set_fs (remove_path p (fs w)) w)
  | Some (Dir names) =>
      (Returned (),
       set_fs (remove_path p
                 (foldr (λ name, remove_path (path_join p name)) (fs w) names))
              w)
  end.

(** ** [convertDocxToPdf] of server.js: the supervisor *)
Module Supervisor.

(** The [ChildProcess] object as Node maintains it. *)
Record ChildProcess := mkChild {
  handle : bool;                 (* child._handle: the process exists *)
  killed : bool;                 (* child.killed *)
  exitCode : option Z;           (* child.exitCode *)
  signalCode : option Signal;    (* child.signalCode *)
  closed : bool                  (* 'close' has been emitted *)
}.

Definition spawned : ChildProcess := mkChild true false None None false.

(** The variables that the closures of [convertDocxToPdf] share. *)
Record State := mkState {
  startTime : Z;
  timeoutMs : Z;
  inputFile : string;
  outputDir : string;
  stdout : string;
  stderr : string;
  timeoutId : option Z;          (* due time of the deadline timer while
                                    it is pending *)
  graceTimer : option Z;         (* due time of the inner timer while it
                                    is pending *)
  processKilled : bool;
  child : ChildProcess;
  promise : option (Settlement string);
  world : World
}.

Definition set_stdout (x : string) (s : State) : State :=
  mkState (startTime s) (timeoutMs s) (inputFile s) (outputDir s) x
    (stderr s) (timeoutId s) (graceTimer s) (processKilled s) (child s)
    (promise s) (world s).
Definition set_stderr (x : string) (s : State) : State :=
  mkState (startTime s) (timeoutMs s) (inputFile s) (outputDir s) (stdout s)
    x (timeoutId s) (graceTimer s) (processKilled s) (child s)
    (promise s) (world s).
Definition set_timeoutId (x : option Z) (s : State) : State :=
  mkState (startTime s) (timeoutMs s) (inputFile s) (outputDir s) (stdout s)
    (stderr s) x (graceTimer s) (processKilled s) (child s)
    (promise s) (world s).
Definition set_graceTimer (x : option Z) (s : State) : State :=
  mkState (startTime s) (timeoutMs s) (inputFile s) (outputDir s) (stdout s)
    (stderr s) (timeoutId s) x (processKilled s) (child s)
    (promise s) (world s).
Definition set_processKilled (x : bool) (s : State) : State :=
  mkState (startTime s) (timeoutMs s) (inputFile s) (outputDir s) (stdout s)
    (stderr s) (timeoutId s) (graceTimer s) x (child s)
    (promise s) (world s).
Definition set_child (x : ChildProcess) (s : State) : State :=
  mkState (startTime s) (timeoutMs s) (inputFile s) (outputDir s) (stdout s)
    (stderr s) (timeoutId s) (graceTimer s) (processKilled s) x
    (promise s) (world s).
Definition set_promise (x : option (Settlement string)) (s : State) : State :=
  mkState (startTime s) (timeoutMs s) (inputFile s) (outputDir s) (stdout s)
    (stderr s) (timeoutId s) (graceTimer s) (processKilled s) (child s)
    x (world s).
Definition set_world (x : World) (s : State) : State :=
  mkState (startTime s) (timeoutMs s) (inputFile s) (outputDir s) (stdout s)
    (stderr s) (timeoutId s) (graceTimer s) (processKilled s) (child s)
    (promise s) x.

Definition log (l : LogLine) (s : State) : State :=
  set_world (say l (world s)) s.

(** [resolve] and [reject] of the promise: only the first call counts. *)
Definition settle (x : Settlement string) (s : State) : State :=
  match promise s with
  | None => set_promise (Some x) s
  | Some _ => s
  end.
Definition resolve (v : string) : State → State := settle (Fulfilled v).
Definition reject (e : JsError) : State → State := settle (Rejected e).

(** Node's [child.kill(sig)]: while the process exists the signal is
    delivered and [child.killed] is set; afterwards nothing happens. *)
Definition child_kill (sig : Signal) (s : State) : State :=
  if handle (child s) then
    set_world (emit (EKill sig) (world s))
      (set_child (mkChild true true (exitCode (child s))
                    (signalCode (child s)) (closed (child s))) s)
  else s.

(** [fs.unlink(inputFile).catch(() => console.warn(...))] *)
Definition cleanup_input (s : State) : State :=
  match unlink (inputFile s) (world s) with
  | (Returned _, w) => set_world w s
  | (_, w) => log LogCleanupInputFailed (set_world w s)
  end.

(** [child.stdout.on('data', ...)] *)
Definition on_stdout (data : string) (s : State) : State :=
  log (LogStdout data) (set_stdout (stdout s +:+ data) s).

(** [child.stderr.on('data', ...)] *)
Definition on_stderr (data : string) (s : State) : State :=
  log (LogStderr data) (set_stderr (stderr s +:+ data) s).

(** The callback of the inner [setTimeout(..., 5000)]. *)
Definition on_grace (s : State) : State :=
  match exitCode (child s) with
  | None => child_kill SIGKILL (log LogForceKill s)
  | Some _ => s
  end.

(** The callback of [setTimeout(..., timeoutMs)]. *)
Definition on_timeout (s : State) : State :=
  if negb (killed (child s)) && bool_decide (exitCode (child s) = None) then
    let s1 := set_processKilled true s in
    let s2 := log (LogTimeoutKill (timeoutMs s)) s1 in
    let s3 := child_kill SIGTERM s2 in
    set_graceTimer (Some (now (world s) + 5000)) s3
  else s.

(** The part of the 'close' handler that looks for the PDF. *)
Definition find_pdf (s : State) : State :=
  match readdir (outputDir s) (world s) with
  | (Returned files, _) =>
      let pdfFiles := filter (λ f, endsWith f ".pdf" = true) files in
      match pdfFiles with
      | [] => reject (PdfNotGenerated (outputDir s) files) s
      | first :: _ =>
          let pdfFile := path_join (outputDir s) first in
          match stat pdfFile (world s) with
          | (Returned size, _) =>
              resolve pdfFile (log (LogPdfGenerated pdfFile size) s)
          | (Threw e, _) => reject e s
          | (Pending, _) => s
          end
      end
  | (Threw e, _) => reject e s
  | (Pending, _) => s
  end.

(** [child.on('close', (code, signal) => ...)] *)
Definition on_close (code : option Z) (signal : option Signal)
    (s : State) : State :=
  let duration := now (world s) - startTime s in
  let s1 := set_timeoutId None s in
  let s2 := cleanup_input s1 in
  let s3 := log (LogCompleted duration code signal) s2 in
  if processKilled s3 then
    reject (ConversionTimeout (timeoutMs s3) duration
              (stdout s3) (stderr s3)) s3
  else if bool_decide (code ≠ Some 0) then
    reject (ConversionFailed code duration (stderr s3) (stdout s3))
      (log (LogExitFailure code (stdout s3) (stderr s3)) s3)
  else find_pdf s3.

(** [child.on('error', (error) => ...)] *)
Definition on_error (error : JsError) (s : State) : State :=
  let s1 := set_timeoutId None s in
  let s2 := log (LogSpawnError error) s1 in
  let s3 := cleanup_input s2 in
  reject error s3.

(** What Node records when the process ends. *)
Definition exited (st : ExitStatus) (c : ChildProcess) : ChildProcess :=
  match st with
  | ExitCode n => mkChild false (killed c) (Some n) (signalCode c) (closed c)
  | ExitSignal sg => mkChild false (killed c) (exitCode c) (Some sg) (closed c)
  end.

Definition mark_closed (c : ChildProcess) : ChildProcess :=
  mkChild (handle c) (killed c) (exitCode c) (signalCode c) true.

Definition timer_due (t : option Z) (s : State) : bool :=
  match t with
  | Some due => due <=? now (world s)
  | None => false
  end.

(** One turn of the event loop.  An event that cannot happen in the
    state (a timer that is not due, output from a closed stream, a
    second exit) leaves the state as it is. *)
Definition deliver (s : State) (ev : Event) : State :=
  match ev with
  | Elapse ms =>
      set_world (set_now (now (world s) + Z.max 0 ms) (world s)) s
  | StdoutData d => if closed (child s) then s else on_stdout d s
  | StderrData d => if closed (child s) then s else on_stderr d s
  | ChildWrites name c =>
      if handle (child s) then
        set_world (set_fs (add_entry (outputDir s) name c (fs (world s)))
                     (world s)) s
      else s
  | DeadlineFires =>
      if timer_due (timeoutId s) s then on_timeout (set_timeoutId None s)
      else s
  | GraceFires =>
      if timer_due (graceTimer s) s then on_grace (set_graceTimer None s)
      else s
  | Exits st =>
      if handle (child s) then set_child (exited st (child s)) s else s
  | Closes =>
      if negb (handle (child s)) && negb (closed (child s)) then
        on_close (exitCode (child s)) (signalCode (child s))
          (set_child (mark_closed (child s)) s)
      else s
  | ErrorEvent e => if closed (child s) then s else on_error e s
  end.

Definition run (evs : list Event) (s : State) : State :=
  foldl deliver s evs.

(** The argument vector of the LibreOffice process. *)
Definition libreoffice_args (outputDir inputFile : string) : list string :=
  ["--headless"; "--convert-to"; "pdf"; "--outdir"; outputDir; inputFile].

Definition libreoffice (outputDir inputFile : string) : ProcessStart :=
  spawn "libreoffice" (libreoffice_args outputDir inputFile).

(** The state right after [spawn] and the installation of the handlers. *)
Definition start (inputFile outputDir : string) (timeoutMs startTime : Z)
    (w : World) : State :=
  mkState startTime timeoutMs inputFile outputDir EmptyString EmptyString
    (Some (now w + timeoutMs)) None false spawned None
    (emit (EStart (libreoffice outputDir inputFile)) w).

Definition default_timeoutMs : Z := 60000.

(** *** Vocabulary for runs of the supervisor *)

(** Events during which the process just keeps running. *)
Definition quiet (ev : Event) : bool :=
  match ev with
  | Elapse _ | StdoutData _ | StderrData _ | ChildWrites _ _ => true
  | _ => false
  end.

Definition not_error (ev : Event) : bool :=
  match ev with ErrorEvent _ => false | _ => true end.

Definition not_close (ev : Event) : bool :=
  match ev with Closes => false | _ => true end.

(** What holds while the deadline timer is still pending. *)
Record armed (s : State) : Prop := mkArmed {
  armed_promise : promise s = None;
  armed_flag : processKilled s = false;
  armed_killed : killed (child s) = false;
  armed_grace : graceTimer s = None;
  armed_open : closed (child s) = false
}.

(** What holds from the moment the deadline handler has sent SIGTERM. *)
Record timed_out (s : State) : Prop := mkTimedOut {
  to_flag : processKilled s = true;
  to_promise : ∀ x, promise s = Some x →
    ∃ d out err, x = Rejected (ConversionTimeout (timeoutMs s) d out err);
  to_closed : closed (child s) = true → promise s ≠ None
}.


(** A disk with a staged input file and an empty output directory, and a
    child that writes two PDF files before it exits with code 0. *)
Definition disk : FS :=
  <["/tmp/out" := Dir []]> (<["/tmp/in.docx" := File "DOCX"]> ∅).



(** While the process exists it has no exit code and has not closed. *)
Definition child_ok (s : State) : Prop :=
  handle (child s) = true → exitCode (child s) = None ∧ closed (child s) = false.


Section WithEnv.
Context (env : Env).

Definition input_name (t : Z) : string :=
  "input_" +:+ pretty t +:+ "_" +:+ random36 env t +:+ ".docx".

(** [convertDocxToPdf(docxBuffer, outputDir, timeoutMs = 60000)] *)
Definition convertDocxToPdf (docxBuffer : Buffer) (outputDir : string)
    (timeoutMs : Z) : M string := λ w,
  let startTime := now w in
  let inputFile := path_join tmpdir (input_name (now w)) in
  match writeFile env inputFile docxBuffer w with
  | (Returned _, w1) =>
      let w2 := say (LogInputWritten inputFile (buffer_length docxBuffer))
                  w1 in
      let s0 := start inputFile outputDir timeoutMs startTime w2 in
      let s := run (schedule env (libreoffice outputDir inputFile)) s0 in
      (await (promise s), world s)
  | (Threw e, w1) => (Threw e, w1)
  | (Pending, w1) => (Pending, w1)
  end.
End WithEnv.

End Supervisor.

(** ** The conversion paths of server.js above the supervisor *)
Module Service.

(** The object the callback of [/api/convert-sync] returns. *)
Record SyncResult := mkSyncResult {
  success : bool;
  pdfBuffer : Base64;
  size : Z
}.

Section WithEnv.
Context (env : Env).

(** [fetch(...)] of node-fetch: the call is recorded and its promise
    settles as [fetch_reply] says; a refused URL and a network failure
    reject. *)
Definition fetch (r : Request) : M (Z * string * Buffer) := λ w,
  match fetch_reply env r with
  | NetworkError e => (Threw e, emit (EFetch r) w)
  | Response st txt body => (Returned (st, txt, body), emit (EFetch r) w)
  end.

(** [process.env.RENDER_WEBHOOK_SECRET || ''] *)
Definition secret_header : string :=
  match RENDER_WEBHOOK_SECRET env with
  | Some s => s
  | None => EmptyString
  end.

(** The test in the first statement of [convertDocxToPdfFromUrl]. *)
Definition unusable_url (docxUrl : string) : bool :=
  bool_decide (docxUrl = "test") || bool_decide (docxUrl = "health-check")
  || negb (startsWith docxUrl "http").

(** [convertDocxToPdfFromUrl(docxUrl, orderId)] *)
Definition convertDocxToPdfFromUrl (docxUrl orderId : string) : M Buffer :=
  if unusable_url docxUrl then throw InvalidDocxUrl
  else
    timestamp ← Date_now;
    let outputDir :=
      path_join tmpdir ("output_" +:+ orderId +:+ "_" +:+ pretty timestamp) in
    try_catch
      (console_log (LogDownloading docxUrl);;
       response ← fetch (GET docxUrl);
       let '(status, statusText, buffer) := response in
       if negb (response_ok status)
       then throw (DownloadFailed status statusText)
       else
         console_log (LogDownloaded (buffer_length buffer));;
         mkdir env outputDir;;
         console_log LogRunning;;
         pdfPath ← Supervisor.convertDocxToPdf env buffer outputDir 60000;
         pdfBuffer ← readFile pdfPath;
         console_log (LogPdfRead (buffer_length pdfBuffer));;
         try_catch
           (unlink pdfPath;; rm outputDir;; console_log LogCleanedUp)
           (λ cleanupError, console_log (LogCleanupWarning cleanupError));;
         mret pdfBuffer)
      (λ error,
         try_catch
           (try_catch (rm outputDir) (λ _, mret ()))
           (λ cleanupError, console_log (LogCleanupError cleanupError));;
         throw error).

(** The [async () => { ... }] that [/api/convert-sync] hands to
    [conversionQueue.enqueue]. *)
Definition sync_callback (docxUrl : string) : M SyncResult :=
  try_catch
    (console_log (LogDownloading docxUrl);;
     docxResponse ← fetch (GET docxUrl);
     let '(status, _, docxBuffer) := docxResponse in
     if negb (response_ok status)
     then throw (DownloadFailedSync status)
     else
       console_log (LogDownloaded (buffer_length docxBuffer));;
       t ← Date_now;
       let outputDir :=
         path_join tmpdir
           ("output_sync_" +:+ pretty t +:+ "_" +:+ random36 env t) in
       mkdir env outputDir;;
       console_log LogRunning;;
       pdfPath ← Supervisor.convertDocxToPdf env docxBuffer outputDir 60000;
       pdfBuffer ← readFile pdfPath;
       console_log (LogPdfRead (buffer_length pdfBuffer));;
       try_catch
         (unlink pdfPath;; rm outputDir;; console_log LogCleanedUp)
         (λ e, console_log (LogCleanupWarning e));;
       mret (mkSyncResult true (toBase64 pdfBuffer) (buffer_length pdfBuffer)))
    (λ error, console_log (LogSyncError error);; throw error).

(** The first continuation of [/api/convert]:
    [.then(async (pdfBuffer) => { ... })]. *)
Definition notify_completed (orderId jobId callbackUrl : string)
    (pdfBuffer : Buffer) : M unit :=
  let base64Pdf := toBase64 pdfBuffer in
  console_log
    (LogConversionCompleted orderId (buffer_length pdfBuffer) callbackUrl);;
  try_catch
    (webhookResponse ←
       fetch (POST callbackUrl secret_header
                (BodyCompleted orderId jobId base64Pdf));
     let '(status, _, errorText) := webhookResponse in
     if response_ok status
     then console_log (LogWebhookSent orderId)
     else console_log (LogWebhookFailed status errorText))
    (λ webhookError, console_log (LogWebhookError webhookError)).

(** The second continuation: [.catch(async (error) => { ... })]. *)
Definition notify_failed (orderId jobId callbackUrl : string)
    (error : JsError) : M unit :=
  console_log (LogConversionFailed orderId error);;
  try_catch
    (fetch (POST callbackUrl secret_header
              (BodyFailed orderId jobId (message error)));;
     console_log (LogFailureWebhookSent orderId))
    (λ webhookError, console_log (LogFailureWebhookError webhookError)).

(** [p.then(f).catch(g)] *)
Definition then_catch {A B} (p : M A) (f : A → M B) (g : JsError → M B)
    : M B :=
  try_catch (a ← p; f a) g.

(** The promise chain that [/api/convert] starts and does not await. *)
Definition convert_job (docxUrl orderId callbackUrl jobId : string)
    : M unit :=
  then_catch (convertDocxToPdfFromUrl docxUrl orderId)
    (notify_completed orderId jobId callbackUrl)
    (notify_failed orderId jobId callbackUrl).
End WithEnv.

End Service.

(** ** The earlier conversion path, which starts LibreOffice with [exec] *)
Module Legacy.

(** [s.includes(sub)] *)
Definition includes (s sub : string) : bool :=
  match String.index 0 sub s with Some _ => true | None => false end.

(** The template string that becomes the shell command. *)
Definition command (outputDir inputFile : string) : string :=
  "libreoffice --headless --convert-to pdf --outdir " +:+ dquote +:+ outputDir
  +:+ dquote +:+ " " +:+ dquote +:+ inputFile +:+ dquote.

(** How a shell divides a command line into commands: at every [;] that
    is not inside double quotes.  [quoted] tells whether a quotation is
    open and [cur] holds the command read so far. *)
Fixpoint split_commands (s : string) (quoted : bool) (cur : string)
    : list string :=
  match s with
  | EmptyString => [cur]
  | String c rest =>
      if Ascii.eqb c (Ascii.Ascii false true false false false true false false)
      then split_commands rest (negb quoted) (cur +:+ String c EmptyString)
      else if Ascii.eqb c ";"%char && negb quoted
      then cur :: split_commands rest false EmptyString
      else split_commands rest quoted (cur +:+ String c EmptyString)
  end.

Definition sh_commands (cmd : string) : list string :=
  split_commands cmd false EmptyString.

Definition input_path (orderId : string) (timestamp : Z) : string :=
  path_join tmpdir ("input_" +:+ orderId +:+ "_" +:+ pretty timestamp +:+ ".docx").

Definition output_path (orderId : string) (timestamp : Z) : string :=
  path_join tmpdir ("output_" +:+ orderId +:+ "_" +:+ pretty timestamp).

Section WithEnv.
Context (env : Env).

(** [execAsync(command)]: a shell interprets the string. *)
Definition execAsync (cmd : string) : M (string * string) := λ w,
  let w1 := emit (EStart (exec cmd)) w in
  match shell_reply env cmd with
  | ExecDone out err written =>
      (Returned (out, err),
       set_fs (foldl (λ f '(dir, name, c), add_entry dir name c f)
                 (fs w1) written) w1)
  | ExecFailed e => (Threw e, w1)
  end.

(** [convertDocxToPdf(docxUrl, orderId)] *)
Definition convertDocxToPdf (docxUrl orderId : string) : M Buffer :=
  if Service.unusable_url docxUrl then throw InvalidDocxUrl
  else
    timestamp ← Date_now;
    let inputFile := input_path orderId timestamp in
    let outputDir := output_path orderId timestamp in
    try_catch
      (console_log (LogDownloading docxUrl);;
       response ← Service.fetch env (GET docxUrl);
       let '(status, statusText, buffer) := response in
       if negb (response_ok status)
       then throw (DownloadFailed status statusText)
       else
         writeFile env inputFile buffer;;
         console_log (LogDownloaded (buffer_length buffer));;
         mkdir env outputDir;;
         let cmd := command outputDir inputFile in
         console_log LogRunning;;
         console_log (LogLegacyCommand cmd);;
         output ← execAsync cmd;
         let '(stdout, stderr) := output in
         (if negb (bool_decide (stderr = EmptyString)) && negb (includes stderr "INFO")
          then console_log (LogStderr stderr) else mret ());;
         (if negb (bool_decide (stdout = EmptyString))
          then console_log (LogStdout stdout) else mret ());;
         files ← readdir outputDir;
         match find (λ f, endsWith f ".pdf") files with
         | None => throw (LegacyPdfNotGenerated files)
         | Some pdfFile =>
             let pdfPath := path_join outputDir pdfFile in
             pdfBuffer ← readFile pdfPath;
             console_log (LogPdfRead (buffer_length pdfBuffer));;
             try_catch
               (unlink inputFile;; rm outputDir;; console_log LogCleanedUp)
               (λ cleanupError, console_log (LogCleanupWarning cleanupError));;
             mret pdfBuffer
         end)
      (λ error,
         try_catch
           (try_catch (unlink inputFile) (λ _, mret ());;
            try_catch (rm outputDir) (λ _, mret ()))
           (λ cleanupError, console_log (LogCleanupError cleanupError));;
         throw error).
End WithEnv.

End Legacy.

(** ** The class [ConversionQueue] *)
Module Queue.

Section WithCallbacks.
(** [C] is the type of the callbacks handed to [enqueue] and [R] the
    type of what they resolve with; the queue inspects neither. *)
Context (R C : Type).

(** [{ docxUrl, callback, resolve, reject }]: [resolve] and [reject]
    belong to the promise that [enqueue] returned, named here by the
    number of that promise. *)
Record Entry := mkEntry {
  docxUrl : string;
  callback : C;
  ticket : nat
}.

(** An activation of [processQueue] that waits at one of its awaits. *)
Inductive Suspended :=
  | AwaitCallback (request : Entry)
  | AwaitCooldown (request : Entry) (due : Z).

Record State := mkState {
  queue : list Entry;                    (* this.queue *)
  processing : bool;                     (* this.processing *)
  suspended : list Suspended;
  promises : gmap nat (Settlement R);    (* the promises handed out by
                                            enqueue that are settled *)
  issued : nat;                          (* how many were handed out *)
  clock : Z;
  dispatched : list (Z * Entry);         (* calls of request.callback() *)
  settled : list (Z * nat)               (* calls of resolve or reject *)
}.

(** [new ConversionQueue()] at a given time. *)
Definition init (t : Z) : State := mkState [] false [] ∅ 0%nat t [] [].

(** [processQueue()] up to its first await. *)
Definition processQueue (s : State) : State :=
  if processing s || bool_decide (length (queue s) = 0%nat) then s
  else
    match queue s with
    | request :: rest =>
        mkState rest true (suspended s ++ [AwaitCallback request])
          (promises s) (issued s) (clock s)
          (dispatched s ++ [(clock s, request)]) (settled s)
    | [] => s
    end.

(** [enqueue(docxUrl, callback)] *)
Definition enqueue (url : string) (cb : C) (s : State) : State :=
  let request := mkEntry url cb (issued s) in
  processQueue
    (mkState (queue s ++ [request]) (processing s) (suspended s)
       (promises s) (S (issued s)) (clock s) (dispatched s) (settled s)).

(** [request.resolve(result)] or [request.reject(error)]: a promise
    keeps its first settlement. *)
Definition settle (request : Entry) (x : Settlement R) (s : State) : State :=
  mkState (queue s) (processing s) (suspended s)
    (match promises s !! ticket request with
     | None => <[ticket request := x]> (promises s)
     | Some _ => promises s
     end)
    (issued s) (clock s) (dispatched s)
    (settled s ++ [(clock s, ticket request)]).

(** [processQueue] from the moment [request.callback()] settles to the
    await in [finally]. *)
Definition after_callback (i : nat) (outcome : Settlement R) (s : State)
    : State :=
  match suspended s !! i with
  | Some (AwaitCallback request) =>
      let s1 :=
        match outcome with
        | Fulfilled result => settle request (Fulfilled result) s
        | Rejected error => settle request (Rejected error) s
        end in
      mkState (queue s1) (processing s1)
        (<[i := AwaitCooldown request (clock s1 + 1000)]> (suspended s1))
        (promises s1) (issued s1) (clock s1) (dispatched s1) (settled s1)
  | _ => s
  end.

(** [processQueue] after the 1000 ms timer of [finally]. *)
Definition after_cooldown (i : nat) (s : State) : State :=
  match suspended s !! i with
  | Some (AwaitCooldown _ due) =>
      if due <=? clock s then
        processQueue
          (mkState (queue s) false (delete i (suspended s)) (promises s)
             (issued s) (clock s) (dispatched s) (settled s))
      else s
  | _ => s
  end.

Inductive Event :=
  | Enqueue (url : string) (cb : C)
  | CallbackSettles (i : nat) (outcome : Settlement R)
  | CooldownFires (i : nat)
  | Elapse (ms : Z).

Definition deliver (s : State) (ev : Event) : State :=
  match ev with
  | Enqueue url cb => enqueue url cb s
  | CallbackSettles i outcome => after_callback i outcome s
  | CooldownFires i => after_cooldown i s
  | Elapse ms =>
      mkState (queue s) (processing s) (suspended s) (promises s)
        (issued s) (clock s + Z.max 0 ms) (dispatched s) (settled s)
  end.

Definition run (evs : list Event) (s : State) : State :=
  foldl deliver s evs.

Definition is_dispatched (a : Suspended) : bool :=
  match a with AwaitCallback _ => true | AwaitCooldown _ _ => false end.

(** The entries whose callback is running. *)
Definition in_flight (s : State) : list Entry :=
  omap (λ a, match a with
             | AwaitCallback e => Some e
             | AwaitCooldown _ _ => None
             end) (suspended s).

(** The entries that are not settled yet, oldest first. *)
Definition pending (s : State) : list Entry := in_flight s ++ queue s.

(** The events that let the queue run dry when the callbacks settle
    with [outcomes], one after the other. *)
Definition drain (outcomes : list (Settlement R)) : list Event :=
  [Elapse 1000; CooldownFires 0] ++
  outcomes ≫= λ o, [CallbackSettles 0 o; Elapse 1000; CooldownFires 0].
End WithCallbacks.

Arguments mkEntry {C} _ _ _.
Arguments docxUrl {C} _.
Arguments callback {C} _.
Arguments ticket {C} _.
Arguments AwaitCallback {C} _.
Arguments AwaitCooldown {C} _ _.
Arguments mkState {R C} _ _ _ _ _ _ _ _.
Arguments queue {R C} _.
Arguments processing {R C} _.
Arguments suspended {R C} _.
Arguments promises {R C} _.
Arguments issued {R C} _.
Arguments clock {R C} _.
Arguments dispatched {R C} _.
Arguments settled {R C} _.
Arguments init {R C} _.
Arguments processQueue {R C} _.
Arguments enqueue {R C} _ _ _.
Arguments settle {R C} _ _ _.
Arguments after_callback {R C} _ _ _.
Arguments after_cooldown {R C} _ _.
Arguments Enqueue {R C} _ _.
Arguments CallbackSettles {R C} _ _.
Arguments CooldownFires {R C} _.
Arguments Elapse {R C} _.
Arguments deliver {R C} _ _.
Arguments run {R C} _ _.
Arguments is_dispatched {C} _.
Arguments in_flight {R C} _.
Arguments pending {R C} _.
Arguments drain {R C} _.

(** *** What every reachable state of the queue satisfies *)
Section Invariant.
Context {R C : Type}.

(** The shape of [suspended] and what it says about the two journals:
    nothing waits and the journals are level; or one callback runs, which
    is the last one dispatched and the only one not yet settled; or one
    cooldown runs, set 1000 ms after the last settlement. *)
Definition phase_ok (s : State R C) : Prop :=
  match suspended s with
  | [] =>
      processing s = false
      ∧ length (settled s) = length (dispatched s)
      ∧ ∀ ts k, last (settled s) = Some (ts, k) → ts + 1000 ≤ clock s
  | [AwaitCallback e] =>
      processing s = true
      ∧ ∃ D t, dispatched s = D ++ [(t, e)] ∧ length (settled s) = length D
  | [AwaitCooldown e due] =>
      processing s = true
      ∧ length (settled s) = length (dispatched s)
      ∧ ∃ S ts, settled s = S ++ [(ts, ticket e)] ∧ due = ts + 1000
  | _ => False
  end.

Record consistent (s : State R C) : Prop := mkConsistent {
  c_tickets :
    map (λ d, ticket d.2) (dispatched s) ++ map ticket (queue s)
    = seq 0 (issued s);
  c_settled : map snd (settled s) = seq 0 (length (settled s));
  c_promises : ∀ k, is_Some (promises s !! k) ↔ (k < length (settled s))%nat;
  c_phase : phase_ok s;
  c_spaced : ∀ i td e ts k,
    dispatched s !! S i = Some (td, e) → settled s !! i = Some (ts, k) →
    ts + 1000 ≤ td;
  c_after : ∀ i td e ts k,
    dispatched s !! i = Some (td, e) → settled s !! i = Some (ts, k) →
    td ≤ ts;
  c_dispatched_past : Forall (λ d, d.1 ≤ clock s) (dispatched s);
  c_settled_past : Forall (λ x, x.1 ≤ clock s) (settled s)
}.

(** A queue at rest has nothing left to dispatch. *)
Definition quiescent (s : State R C) : Prop :=
  suspended s = [] → queue s = [].

End Invariant.

End Queue.

(** ** The two conversion endpoints, request by request

    Here a conversion is followed only through the moments that decide
    whether its LibreOffice child is alive: the download answers, the child
    closes.  [/api/convert] calls [convertDocxToPdfFromUrl] in the handler
    itself; [/api/convert-sync] hands its conversion to [conversionQueue]. *)
Module Server.

Inductive Endpoint := Async | Sync.

Inductive Phase :=
  | Downloading          (* awaiting fetch(docxUrl) *)
  | Converting           (* between spawn and 'close' *)
  | Finished.

Global Instance Phase_eq_dec : EqDecision Phase.
Proof. solve_decision. Defined.

Record Conversion := mkConversion {
  via : Endpoint;
  url : string;
  phase : Phase
}.

Record State := mkState {
  conversionQueue : Queue.State Service.SyncResult string;
  conversions : list Conversion
}.

Definition init (t : Z) : State := mkState (Queue.init t) [].

(** A field of [req.body]; [!x] holds when it is absent or empty. *)
Definition falsy (x : option string) : bool :=
  match x with
  | None => true
  | Some s => bool_decide (s = EmptyString)
  end.

Inductive HttpRequest :=
  | PostConvert (docxUrl orderId callbackUrl : option string)
  | PostConvertSync (docxUrl : option string).

Inductive Event :=
  | Receives (r : HttpRequest)
  | Downloaded (i : nat) (reply : FetchReply)
  | ChildCloses (i : nat) (result : Settlement Service.SyncResult)
  | CooldownFires
  | Elapse (ms : Z).

(** The conversions that the queue has started between two of its
    states: one per new call of [request.callback()]. *)
Definition started (q q' : Queue.State Service.SyncResult string)
    : list Conversion :=
  map (λ d, mkConversion Sync (Queue.docxUrl d.2) Downloading)
    (drop (length (Queue.dispatched q)) (Queue.dispatched q')).

Definition with_queue (q' : Queue.State Service.SyncResult string)
    (s : State) : State :=
  mkState q' (conversions s ++ started (conversionQueue s) q').

Definition set_phase (i : nat) (p : Phase) (s : State) : State :=
  mkState (conversionQueue s)
    (alter (λ c, mkConversion (via c) (url c) p) i (conversions s)).

(** The callback of a queued conversion has settled. *)
Definition callback_done (c : Conversion)
    (outcome : Settlement Service.SyncResult) (s : State) : State :=
  match via c with
  | Sync => with_queue (Queue.after_callback 0 outcome (conversionQueue s)) s
  | Async => s
  end.

Definition receive (r : HttpRequest) (s : State) : State :=
  match r with
  | PostConvert docxUrl orderId callbackUrl =>
      if falsy docxUrl || falsy orderId || falsy callbackUrl then s
      else
        match docxUrl with
        | Some u =>
            if Service.unusable_url u then s
            else mkState (conversionQueue s)
                   (conversions s ++ [mkConversion Async u Downloading])
        | None => s
        end
  | PostConvertSync docxUrl =>
      match docxUrl with
      | Some u =>
          if falsy docxUrl then s
          else with_queue (Queue.enqueue u u (conversionQueue s)) s
      | None => s
      end
  end.

Definition download_error (c : Conversion) (reply : FetchReply) : JsError :=
  match reply with
  | NetworkError e => e
  | Response st txt _ =>
      match via c with
      | Async => DownloadFailed st txt
      | Sync => DownloadFailedSync st
      end
  end.

Definition deliver (s : State) (ev : Event) : State :=
  match ev with
  | Receives r => receive r s
  | Downloaded i reply =>
      match conversions s !! i with
      | Some c =>
          match phase c, reply with
          | Downloading, Response st _ _ =>
              if response_ok st then set_phase i Converting s
              else callback_done c (Rejected (download_error c reply))
                     (set_phase i Finished s)
          | Downloading, NetworkError _ =>
              callback_done c (Rejected (download_error c reply))
                (set_phase i Finished s)
          | _, _ => s
          end
      | None => s
      end
  | ChildCloses i result =>
      match conversions s !! i with
      | Some c =>
          match phase c with
          | Converting => callback_done c result (set_phase i Finished s)
          | _ => s
          end
      | None => s
      end
  | CooldownFires =>
      with_queue (Queue.after_cooldown 0 (conversionQueue s)) s
  | Elapse ms =>
      mkState (Queue.deliver (conversionQueue s) (Queue.Elapse ms))
        (conversions s)
  end.

Definition run (evs : list Event) (s : State) : State :=
  foldl deliver s evs.

(** The conversions whose LibreOffice process is alive. *)
Definition running (s : State) : list Conversion :=
  filter (λ c, phase c = Converting) (conversions s).

End Server.

(** ** Concrete environments and inputs *)
Module Scenario.

Definition w0 : World := mkWorld 0 ∅ [] [].

(** The document downloads, LibreOffice fails with exit code 1, and the
    webhook endpoint answers 500. *)
Definition converter_fails : Env :=
  mkEnv (λ r, match r with
              | GET _ => Response 200 "OK" "docx bytes"
              | POST _ _ _ => Response 500 "Internal Server Error" "down"
              end)
        (λ _, [StderrData "Error: source file could not be loaded";
               Exits (ExitCode 1); Closes])
        (λ _, ExecFailed (RuntimeError "Error" "Command failed"))
        (λ _, "k3j9x2m1q")
        (λ _, true)
        None.

(** The network answers every request that is sent, and LibreOffice
    succeeds. *)
Definition answers_all : Env :=
  mkEnv (λ r, Response 200 "OK" "docx bytes")
        (λ _, [ChildWrites "input.pdf" "pdf bytes"; Exits (ExitCode 0); Closes])
        (λ _, ExecDone "convert" EmptyString [])
        (λ _, "k3j9x2m1q")
        (λ _, true)
        None.

(** An order id that closes the quotation of the legacy command line; it
    has no slash, so the paths made from it lie directly in the temporary
    directory. *)
Definition hostile_orderId : string :=
  "x" +:+ dquote +:+ ";id;" +:+ dquote.

(** A document URL whose scheme is written in capitals: node-fetch reads
    it as an http URL, while [startsWith('http')] does not match it. *)
Definition capital_scheme_url : string := "HTTP://files.example/a.docx".

Definition two_async_requests : list Server.Event :=
  [Server.Receives (Server.PostConvert (Some "http://files.example/1.docx")
                      (Some "o1") (Some "http://shop.example/hook"));
   Server.Receives (Server.PostConvert (Some "http://files.example/2.docx")
                      (Some "o2") (Some "http://shop.example/hook"));
   Server.Downloaded 0 (Response 200 "OK" "docx bytes");
   Server.Downloaded 1 (Response 200 "OK" "docx bytes")].

Definition sync_then_async_request : list Server.Event :=
  [Server.Receives (Server.PostConvertSync (Some "http://files.example/1.docx"));
   Server.Receives (Server.PostConvert (Some "http://files.example/2.docx")
                      (Some "o2") (Some "http://shop.example/hook"));
   Server.Downloaded 0 (Response 200 "OK" "docx bytes");
   Server.Downloaded 1 (Response 200 "OK" "docx bytes")].

End Scenario.

(** ** Readings of the specification, for comparison with the code *)
Module Spec.


(** Following the spec's words (sections 3 and 7): the outcome of a job and
    the kinds of failure. *)
Inductive FailureKind :=
  | DownloadError
  | SpawnError
  | ProcessExitError
  | TimeoutError
  | OutputMissingError
  | InternalError.

Inductive Outcome :=
  | Completed (artifactBytes : Buffer) (sizeBytes : Z)
  | Failed (kind : FailureKind) (msg : string) (durationMs : Z).

End Spec.

(** ** Further vocabulary for runs of the supervisor *)
Module SupervisorRuns.
Import Supervisor.

(** The text that the child wrote to its standard output, chunk by chunk. *)
Definition stdout_chunks (evs : list Event) : list string :=
  omap (λ ev, match ev with StdoutData d => Some d | _ => None end) evs.

Definition stderr_chunks (evs : list Event) : list string :=
  omap (λ ev, match ev with StderrData d => Some d | _ => None end) evs.

Definition concat_chunks (chunks : list string) : string :=
  foldr String.append EmptyString chunks.

Definition is_directory (f : FS) (p : string) : bool :=
  match f !! p with Some (Dir _) => true | _ => false end.

(** The signals a conversion may have sent by time [t] when its deadline
    timer was due at [T]: none; SIGTERM, not before [T]; SIGTERM and then
    SIGKILL, not before [T + 5000]. *)
Definition kill_stage (T t : Z) (ks : list Signal) : Prop :=
  ks = []
  ∨ (ks = [SIGTERM] ∧ T ≤ t)
  ∨ (ks = [SIGTERM; SIGKILL] ∧ T + 5000 ≤ t).

(** How the two timers and the signals sent so far go together.  [base]
    are the effects up to and including the spawn, [T] the time at which
    the deadline timer is due. *)
Definition timers_ok (base : list Effect) (T : Z) (s : State) : Prop :=
  ∃ ks,
    effects (world s) = base ++ map EKill ks
    ∧ match timeoutId s, graceTimer s with
      | Some due, g => due = T ∧ g = None ∧ ks = []
      | None, Some g =>
          T + 5000 ≤ g ∧ T ≤ now (world s)
          ∧ ((ks = [] ∧ handle (child s) = false) ∨ ks = [SIGTERM])
      | None, None => kill_stage T (now (world s)) ks
      end.

End SupervisorRuns.

(** ** Vocabulary for awaited computations *)
Module Awaited.

(** A computation that lets nothing leave the process. *)
Definition silent {A} (m : M A) : Prop :=
  ∀ w, effects (m w).2 = effects w.

(** A computation that leaves the clock alone. *)
Definition timeless {A} (m : M A) : Prop :=
  ∀ w, now (m w).2 = now w.

(** The effects that a computation adds to those of the world it starts
    in. *)
Definition added {A} (m : M A) (w : World) : list Effect :=
  drop (length (effects w)) (effects (m w).2).

(** The signals a conversion may send, in the order it may send them. *)
Definition escalation (ks : list Signal) : Prop :=
  ks = [] ∨ ks = [SIGTERM] ∨ ks = [SIGTERM; SIGKILL].

End Awaited.

(** ** The two halves of the conversion paths

    The [try] block and the [catch] block of [convertDocxToPdfFromUrl] and
    of the callback of [/api/convert-sync], given names so that each can
    be reasoned about on its own. *)
Module ServiceParts.
Import Service.

Section WithEnv.
Context (env : Env).

(** What follows the conversion in both [try] blocks: read the PDF, clean
    up, hand the bytes on. *)
Definition read_and_clean (outputDir pdfPath : string) : M Buffer :=
  pdfBuffer ← readFile pdfPath;
  console_log (LogPdfRead (buffer_length pdfBuffer));;
  try_catch
    (unlink pdfPath;; rm outputDir;; console_log LogCleanedUp)
    (λ cleanupError, console_log (LogCleanupWarning cleanupError));;
  mret pdfBuffer.

(** The [try] block of [convertDocxToPdfFromUrl]. *)
Definition download_and_convert (docxUrl outputDir : string) : M Buffer :=
  console_log (LogDownloading docxUrl);;
  response ← fetch env (GET docxUrl);
  let '(status, statusText, buffer) := response in
  if negb (response_ok status)
  then throw (DownloadFailed status statusText)
  else
    console_log (LogDownloaded (buffer_length buffer));;
    mkdir env outputDir;;
    console_log LogRunning;;
    pdfPath ← Supervisor.convertDocxToPdf env buffer outputDir 60000;
    read_and_clean outputDir pdfPath.

(** The [catch] block of [convertDocxToPdfFromUrl]. *)
Definition clean_and_rethrow (outputDir : string) (error : JsError)
    : M Buffer :=
  try_catch
    (try_catch (rm outputDir) (λ _, mret ()))
    (λ cleanupError, console_log (LogCleanupError cleanupError));;
  throw error.

Definition async_outputDir (orderId : string) (w : World) : string :=
  path_join tmpdir ("output_" +:+ orderId +:+ "_" +:+ pretty (now w)).



End WithEnv.
End ServiceParts.

(** ** The route handlers *)
Module Routes.
Import Service.

(** The JSON bodies the handlers send. *)
Inductive ResponseBody :=
  | Started (jobId : string)        (* { success: true, jobId,
                                         message: 'Conversion job started' } *)
  | Converted (result : SyncResult) (* the object of the callback *)
  | LegacyConverted (pdfBuffer : Base64) (size : Z)
                                    (* { success: true, pdfBuffer, size } *)
  | Failure (error : string)        (* { success: false, error } *)
  | Alive (timestamp : Z)           (* { status: 'ok',
                                         service: 'word-pdf-service',
                                         timestamp } *)
  | StatusPlaceholder.              (* { success: true, status: 'processing',
                                         message: ... } *)

Record HttpResponse := mkResponse {
  status : Z;
  body : ResponseBody
}.

(** The console lines of the handlers themselves. *)
Inductive RequestLine :=
  | LogNewConversion (orderId docxUrl callbackUrl : string)
  | LogSyncRequest (docxUrl : string)
  | LogEndpointError (e : JsError)
  | LogSyncCompleted (bytes : Z).

(** What handling one request amounts to: the response, if one is ever
    sent; the handler's own console lines; the world afterwards. *)
Record Handled := mkHandled {
  response : option HttpResponse;
  requestLog : list RequestLine;
  world : World
}.

(** [error.message || 'Conversion failed'] *)
Definition message_or_default (e : JsError) : string :=
  match message e with
  | EmptyString => "Conversion failed"
  | m => m
  end.

Section WithEnv.
Context (env : Env).

(** [app.get('/keepalive', ...)] and [app.get('/health', ...)]; the
    timestamp is kept as the clock value that [toISOString] renders. *)
Definition keepalive (w : World) : Handled :=
  mkHandled (Some (mkResponse 200 (Alive (now w)))) [] w.

Definition health (w : World) : Handled :=
  mkHandled (Some (mkResponse 200 (Alive (now w)))) [] w.

(** [app.get('/api/status/:jobId', ...)] *)
Definition api_status (jobId : string) (w : World) : Handled :=
  mkHandled (Some (mkResponse 200 StatusPlaceholder)) [] w.

(** The error-handling middleware. *)
Definition error_middleware (err : JsError) (w : World) : Handled :=
  mkHandled (Some (mkResponse 500 (Failure "Internal server error"))) [] w.

(** [app.post('/api/convert', ...)] of server.js.  The promise chain is
    started and not awaited: the response does not depend on it. *)
Definition api_convert (docxUrl orderId callbackUrl : option string)
    (w : World) : Handled :=
  if Server.falsy docxUrl || Server.falsy orderId || Server.falsy callbackUrl
  then mkHandled
         (Some (mkResponse 400
                  (Failure "Missing required fields: docxUrl, orderId, callbackUrl")))
         [] w
  else
    match docxUrl, orderId, callbackUrl with
    | Some d, Some o, Some c =>
        let jobId := "job_" +:+ o +:+ "_" +:+ pretty (now w) in
        mkHandled (Some (mkResponse 200 (Started jobId)))
          [LogNewConversion o d c]
          (convert_job env d o c jobId w).2
    | _, _, _ =>
        mkHandled
          (Some (mkResponse 400
                   (Failure "Missing required fields: docxUrl, orderId, callbackUrl")))
          [] w
    end.

(** [app.post('/api/convert-sync', ...)] of server.js, for the request
    whose callback the queue runs in world [w]; the queue hands the
    completion of the callback on as it is. *)
Definition api_convert_sync (docxUrl : option string) (w : World) : Handled :=
  match docxUrl with
  | Some d =>
      if Server.falsy docxUrl
      then mkHandled
             (Some (mkResponse 400 (Failure "Missing required field: docxUrl")))
             [] w
      else
        match sync_callback env d w with
        | (Returned result, w') =>
            mkHandled (Some (mkResponse 200 (Converted result)))
              [LogSyncRequest d] w'
        | (Threw error, w') =>
            mkHandled
              (Some (mkResponse 500 (Failure (message_or_default error))))
              [LogSyncRequest d; LogEndpointError error] w'
        | (Pending, w') => mkHandled None [LogSyncRequest d] w'
        end
  | None =>
      mkHandled
        (Some (mkResponse 400 (Failure "Missing required field: docxUrl")))
        [] w
  end.

(** [app.post('/api/convert-sync', ...)] of the earlier server file: the
    conversion is awaited in the handler, with an order id made from the
    clock. *)
Definition legacy_api_convert_sync (docxUrl : option string) (w : World)
    : Handled :=
  match docxUrl with
  | Some d =>
      if Server.falsy docxUrl
      then mkHandled
             (Some (mkResponse 400 (Failure "Missing required field: docxUrl")))
             [] w
      else
        match Legacy.convertDocxToPdf env d ("sync_" +:+ pretty (now w)) w with
        | (Returned pdfBuffer, w') =>
            mkHandled
              (Some (mkResponse 200
                       (LegacyConverted (toBase64 pdfBuffer)
                          (buffer_length pdfBuffer))))
              [LogSyncRequest d; LogSyncCompleted (buffer_length pdfBuffer)] w'
        | (Threw error, w') =>
            mkHandled (Some (mkResponse 500 (Failure (message error))))
              [LogSyncRequest d; LogEndpointError error] w'
        | (Pending, w') => mkHandled None [LogSyncRequest d] w'
        end
  | None =>
      mkHandled
        (Some (mkResponse 400 (Failure "Missing required field: docxUrl")))
        [] w
  end.

End WithEnv.
End Routes.

(** ** Further vocabulary for runs of the queue *)
Module QueueRuns.
Import Queue.

(** The events other than the settling of a callback. *)
Definition never_settles {R C} (ev : Event R C) : bool :=
  match ev with CallbackSettles _ _ => false | _ => true end.

End QueueRuns.

(** ** Further vocabulary for the endpoints *)
Module ServerRuns.
Import Server.

(** A conversion that came through the queue and has not finished. *)
Definition active_sync (c : Conversion) : bool :=
  match via c, phase c with
  | Sync, Downloading | Sync, Converting => true
  | _, _ => false
  end.

Definition count_active_sync (l : list Conversion) : nat :=
  length (filter (λ c, active_sync c = true) l).

(** The conversions that came through the queue and are not finished are as
    many as the callbacks the queue is waiting for. *)
Definition in_step (s : State) : Prop :=
  Queue.consistent (conversionQueue s)
  ∧ Queue.quiescent (conversionQueue s)
  ∧ count_active_sync (conversions s)
    = length (Queue.in_flight (conversionQueue s)).

End ServerRuns.

(** ** The two halves of the earlier conversion path *)
Module LegacyParts.
Import Legacy.

Section WithEnv.
Context (env : Env).

(** The [try] block of the earlier [convertDocxToPdf]. *)
Definition download_and_exec (docxUrl inputFile outputDir : string)
    : M Buffer :=
  console_log (LogDownloading docxUrl);;
  response ← Service.fetch env (GET docxUrl);
  let '(status, statusText, buffer) := response in
  if negb (response_ok status)
  then throw (DownloadFailed status statusText)
  else
    writeFile env inputFile buffer;;
    console_log (LogDownloaded (buffer_length buffer));;
    mkdir env outputDir;;
    let cmd := command outputDir inputFile in
    console_log LogRunning;;
    console_log (LogLegacyCommand cmd);;
    output ← execAsync env cmd;
    let '(stdout, stderr) := output in
    (if negb (bool_decide (stderr = EmptyString)) && negb (includes stderr "INFO")
     then console_log (LogStderr stderr) else mret ());;
    (if negb (bool_decide (stdout = EmptyString))
     then console_log (LogStdout stdout) else mret ());;
    files ← readdir outputDir;
    match find (λ f, endsWith f ".pdf") files with
    | None => throw (LegacyPdfNotGenerated files)
    | Some pdfFile =>
        let pdfPath := path_join outputDir pdfFile in
        pdfBuffer ← readFile pdfPath;
        console_log (LogPdfRead (buffer_length pdfBuffer));;
        try_catch
          (unlink inputFile;; rm outputDir;; console_log LogCleanedUp)
          (λ cleanupError, console_log (LogCleanupWarning cleanupError));;
        mret pdfBuffer
    end.

(** The [catch] block of the earlier [convertDocxToPdf]. *)
Definition clean_both_and_rethrow (inputFile outputDir : string)
    (error : JsError) : M Buffer :=
  try_catch
    (try_catch (unlink inputFile) (λ _, mret ());;
     try_catch (rm outputDir) (λ _, mret ()))
    (λ cleanupError, console_log (LogCleanupError cleanupError));;
  throw error.

End WithEnv.
(** A regular file stands at [p]: what [writeFile] leaves behind, and what
    [unlink] can remove. *)
Definition staged (f : FS) (p : string) : Prop := ∃ c, f !! p = Some (File c).

End LegacyParts.

(** * Properties *)

(** ** The supervisor *)
Module SupervisorProofs.
Import Supervisor.

Ltac unfold_handlers :=
  unfold deliver, on_timeout, on_grace, on_close, on_error, on_stdout,
    on_stderr, find_pdf, cleanup_input, child_kill, reject, resolve, settle,
    log, timer_due, exited, mark_closed in *.

Ltac split_bools :=
  repeat match goal with
    | H : _ && _ = true |- _ => apply andb_prop in H as [? ?]
    | H : _ && _ = false |- _ => apply andb_false_iff in H as [?|?]
    | H : negb _ = true |- _ => apply negb_true_iff in H
    | H : negb _ = false |- _ => apply negb_false_iff in H
    | H : bool_decide _ = true |- _ => apply bool_decide_eq_true in H
    | H : bool_decide _ = false |- _ => apply bool_decide_eq_false in H
    end.

Ltac crush_state :=
  unfold_handlers; cbn in *;
  repeat (case_match; cbn in *; simplify_eq; try done);
  split_bools; try done; auto.

Lemma run_app evs1 evs2 s : run (evs1 ++ evs2) s = run evs2 (run evs1 s).
Proof. apply foldl_app. Qed.

Lemma run_cons ev evs s : run (ev :: evs) s = run evs (deliver s ev).
Proof. reflexivity. Qed.

Lemma deliver_static s ev :
  startTime (deliver s ev) = startTime s ∧ timeoutMs (deliver s ev) = timeoutMs s
  ∧ inputFile (deliver s ev) = inputFile s ∧ outputDir (deliver s ev) = outputDir s.
Proof. destruct ev; crush_state. Qed.

Lemma run_static evs s :
  startTime (run evs s) = startTime s ∧ timeoutMs (run evs s) = timeoutMs s
  ∧ inputFile (run evs s) = inputFile s ∧ outputDir (run evs s) = outputDir s.
Proof.
  revert s. induction evs as [|ev evs IH]; intros s; [done|].
  rewrite run_cons. destruct (IH (deliver s ev)) as (-> & -> & -> & ->).
  apply deliver_static.
Qed.

Lemma deliver_child_ok s ev : child_ok s → child_ok (deliver s ev).
Proof.
  unfold child_ok. intros H. destruct ev; crush_state; intuition congruence.
Qed.

Lemma run_child_ok evs s : child_ok s → child_ok (run evs s).
Proof.
  revert s. induction evs as [|ev evs IH]; intros s H; [done|].
  rewrite run_cons. apply IH, deliver_child_ok, H.
Qed.

Lemma deliver_armed s ev :
  (is_Some (timeoutId s) → armed s) →
  is_Some (timeoutId (deliver s ev)) → armed (deliver s ev).
Proof.
  intros H Hs.
  assert (is_Some (timeoutId s)) as Ht.
  { destruct ev; revert Hs; crush_state; intros []; done. }
  destruct (H Ht) as [H1 H2 H3 H4 H5].
  destruct ev; revert Hs; crush_state; intros Hs;
    try (by destruct Hs); split; cbn; auto.
Qed.

Lemma run_armed evs s :
  (is_Some (timeoutId s) → armed s) →
  is_Some (timeoutId (run evs s)) → armed (run evs s).
Proof.
  revert s. induction evs as [|ev evs IH]; intros s H; [done|].
  rewrite run_cons. apply IH. by apply deliver_armed.
Qed.

Lemma start_armed i o t t0 w : armed (start i o t t0 w).
Proof. by split. Qed.

Lemma start_child_ok i o t t0 w : child_ok (start i o t t0 w).
Proof. by intros _. Qed.

Lemma deliver_timed_out s ev :
  not_error ev = true → timed_out s → timed_out (deliver s ev).
Proof.
  intros Hev [H1 H2 H3].
  destruct ev; try done; crush_state; split; cbn; try done; eauto;
    try (intros x [= <-]; eauto); try (intros; simplify_eq; by eauto);
    try (intros; congruence).
Qed.

Lemma run_timed_out evs s :
  forallb not_error evs = true → timed_out s → timed_out (run evs s).
Proof.
  revert s. induction evs as [|ev evs IH]; intros s Hev H; [done|].
  rewrite run_cons. cbn in Hev. apply andb_prop in Hev as [Hev1 Hev2].
  apply IH; [done|]. by apply deliver_timed_out.
Qed.


Lemma deliver_quiet_promise s ev :
  not_error ev = true → not_close ev = true →
  promise (deliver s ev) = promise s.
Proof. intros H1 H2. destruct ev; try done; crush_state. Qed.

Lemma deliver_still_open s ev :
  not_close ev = true → not_error ev = true → closed (child s) = false →
  closed (child (deliver s ev)) = false ∧ promise (deliver s ev) = promise s
  ∧ (processKilled s = true → processKilled (deliver s ev) = true).
Proof. intros H1 H2 H3. destruct ev; try done; crush_state. Qed.

Lemma run_still_open evs s :
  forallb not_close evs = true → forallb not_error evs = true →
  closed (child s) = false →
  closed (child (run evs s)) = false ∧ promise (run evs s) = promise s
  ∧ (processKilled s = true → processKilled (run evs s) = true).
Proof.
  revert s. induction evs as [|ev evs IH]; intros s H1 H2 H3; [done|].
  rewrite run_cons. cbn in H1, H2.
  apply andb_prop in H1 as [H1 H1']. apply andb_prop in H2 as [H2 H2'].
  destruct (deliver_still_open s ev H1 H2 H3) as (Ha & Hb & Hc).
  destruct (IH (deliver s ev) H1' H2' Ha) as (Hd & He & Hf).
  split; [done|]. split; [congruence|]. auto.
Qed.

Lemma deliver_quiet s ev :
  quiet ev = true →
  child (deliver s ev) = child s ∧ graceTimer (deliver s ev) = graceTimer s
  ∧ effects (world (deliver s ev)) = effects (world s)
  ∧ now (world s) ≤ now (world (deliver s ev)).
Proof. intros H. destruct ev; try done; crush_state; repeat split; lia. Qed.

Lemma run_quiet evs s :
  forallb quiet evs = true →
  child (run evs s) = child s ∧ graceTimer (run evs s) = graceTimer s
  ∧ effects (world (run evs s)) = effects (world s)
  ∧ now (world s) ≤ now (world (run evs s)).
Proof.
  revert s. induction evs as [|ev evs IH]; intros s H.
  { repeat split; reflexivity. }
  rewrite run_cons. cbn in H. apply andb_prop in H as [H H'].
  destruct (deliver_quiet s ev H) as (Ha & Hb & Hc & Hd).
  destruct (IH (deliver s ev) H') as (He & Hf & Hg & Hh).
  repeat split; try congruence. lia.
Qed.

(** What the deadline handler does to a process that still exists. *)
Lemma deadline_fires s :
  armed s → handle (child s) = true → exitCode (child s) = None →
  timer_due (timeoutId s) s = true →
  effects (world (deliver s DeadlineFires))
  = effects (world s) ++ [EKill SIGTERM]
  ∧ timed_out (deliver s DeadlineFires).
Proof.
  intros [Hp Hk Hkd Hg Ho] Hrun Hcode Hdue.
  unfold deliver. rewrite Hdue. unfold on_timeout. cbn.
  rewrite Hkd, Hcode. cbn. unfold child_kill. cbn. rewrite Hrun. cbn.
  split; [done|].
  split; cbn; [done| |]; rewrite Hp; [done|]. by rewrite Ho.
Qed.

(** C1.  Take any run of a conversion up to a moment at which the deadline
    timer is due and the LibreOffice process still exists.  When the timer
    fires, SIGTERM is sent and a second timer is set for 5000 ms later
    (the callers pass 60000 ms as the deadline, which is also the
    default).  While the process keeps running that second timer becomes
    due exactly when those 5000 ms have passed, and firing it then sends
    SIGKILL.  Whatever happens afterwards short of an ['error'] event, the
    promise stays pending until ['close'], and ['close'] rejects it with
    the timeout error, which carries the time elapsed since the start and
    the stdout and stderr text captured so far. *)
Theorem deadline_escalation
    (inputFile outputDir : string) (timeoutMs t0 : Z) (w : World)
    (before : list Event) :
  let s := run before (start inputFile outputDir timeoutMs t0 w) in
  timer_due (timeoutId s) s = true →
  handle (child s) = true →
  let s1 := deliver s DeadlineFires in
  default_timeoutMs = 60000
  ∧ effects (world s1) = effects (world s) ++ [EKill SIGTERM]
  ∧ graceTimer s1 = Some (now (world s) + 5000)
  ∧ (∀ during,
       forallb quiet during = true →
       let s2 := run during s1 in
       (timer_due (graceTimer s2) s2 = true ↔
          now (world s) + 5000 ≤ now (world s2))
       ∧ (timer_due (graceTimer s2) s2 = true →
          effects (world (deliver s2 GraceFires))
          = effects (world s) ++ [EKill SIGTERM; EKill SIGKILL]))
  ∧ (∀ after st,
       forallb not_error after = true → forallb not_close after = true →
       let s3 := run (after ++ [Exits st]) s1 in
       promise s3 = None
       ∧ promise (deliver s3 Closes)
         = Some (Rejected (ConversionTimeout timeoutMs (now (world s3) - t0)
                             (stdout s3) (stderr s3)))).
Proof.
  intros s Hdue Hrun s1.
  assert (is_Some (timeoutId s)) as Hsome.
  { unfold timer_due in Hdue. destruct (timeoutId s); [eauto|done]. }
  destruct (run_armed before _ (λ _, start_armed inputFile outputDir timeoutMs t0 w) Hsome)
    as [Hp Hk Hkd Hg Ho].
  destruct (run_child_ok before _ (start_child_ok inputFile outputDir timeoutMs t0 w) Hrun)
    as [Hcode _].
  destruct (run_static before (start inputFile outputDir timeoutMs t0 w))
    as (Hst & Htm & _ & _). cbn in Hst, Htm.
  fold s in Hp, Hk, Hkd, Hg, Ho, Hcode, Hst, Htm.
  assert (s1 = set_graceTimer (Some (now (world s) + 5000))
                 (child_kill SIGTERM
                    (log (LogTimeoutKill (Supervisor.timeoutMs s))
                       (set_processKilled true (set_timeoutId None s))))) as Hs1.
  { unfold s1, deliver. rewrite Hdue. unfold on_timeout. cbn.
    rewrite Hkd, Hcode. reflexivity. }
  assert (effects (world s1) = effects (world s) ++ [EKill SIGTERM]) as Heff.
  { rewrite Hs1. unfold child_kill. cbn. rewrite Hrun. reflexivity. }
  assert (handle (child s1) = true ∧ exitCode (child s1) = None
          ∧ closed (child s1) = false ∧ processKilled s1 = true
          ∧ promise s1 = None ∧ graceTimer s1 = Some (now (world s) + 5000)
          ∧ now (world s1) = now (world s))
    as (Hh1 & Hc1 & Ho1 & Hk1 & Hp1 & Hg1 & Hn1).
  { rewrite Hs1. unfold child_kill. cbn. rewrite Hrun. cbn. done. }
  split; [reflexivity|]. split; [done|]. split; [done|]. split.
  - intros during Hq s2.
    destruct (run_quiet during s1 Hq) as (Hc2 & Hg2 & He2 & Hn2).
    fold s2 in Hc2, Hg2, He2, Hn2.
    assert (timer_due (graceTimer s2) s2 = true
            ↔ now (world s) + 5000 ≤ now (world s2)) as Hiff.
    { unfold timer_due. rewrite Hg2, Hg1. apply Z.leb_le. }
    split; [done|]. intros Hdue2.
    unfold deliver. rewrite Hdue2. unfold on_grace. cbn.
    rewrite Hc2, Hc1. unfold child_kill. cbn. rewrite Hc2, Hh1. cbn.
    rewrite He2, Heff. by rewrite <- app_assoc.
  - intros after st Hne Hnc s3. unfold s3. rewrite run_app.
    destruct (run_still_open after s1 Hnc Hne Ho1) as (Ha & Hb & Hc).
    set (s2 := run after s1) in *.
    destruct (deliver_still_open s2 (Exits st) eq_refl eq_refl Ha) as (Hd & He & Hf).
    change (run [Exits st] s2) with (deliver s2 (Exits st)).
    set (s4 := deliver s2 (Exits st)) in *.
    assert (handle (child s4) = false) as Hh4.
    { unfold s4, deliver. destruct (handle (child s2)) eqn:E; [|done].
      cbn. by destruct st. }
    assert (startTime s4 = t0 ∧ Supervisor.timeoutMs s4 = timeoutMs) as [Hst4 Htm4].
    { unfold s4, s2, s1.
      destruct (deliver_static (run after (deliver s DeadlineFires)) (Exits st))
        as (-> & -> & _ & _).
      destruct (run_static after (deliver s DeadlineFires)) as (-> & -> & _ & _).
      destruct (deliver_static s DeadlineFires) as (-> & -> & _ & _). done. }
    assert (processKilled s4 = true) as Hk4 by auto.
    assert (promise s4 = None) as Hp4 by congruence.
    clearbody s4. split; [done|].
    unfold deliver. rewrite Hh4, Hd. cbn.
    unfold on_close, cleanup_input. cbn.
    destruct (unlink (Supervisor.inputFile s4) (world s4)) as [[u| |] w'];
      cbn; rewrite Hk4; unfold reject, settle; cbn; rewrite Hp4; cbn;
      rewrite Hst4, Htm4; reflexivity.
Qed.


Lemma unlink_effects p w r w' :
  unlink p w = (r, w') → effects w' = effects w ∧ now w' = now w.
Proof. unfold unlink. repeat case_match; by intros [= <- <-]. Qed.

Lemma deliver_effects s ev e :
  e ∈ effects (world s) → e ∈ effects (world (deliver s ev)).
Proof.
  intros H.
  destruct ev; crush_state; rewrite ?elem_of_app; auto;
    match goal with
    | E : unlink _ _ = _ |- _ =>
        apply unlink_effects in E as [E _]; by rewrite E
    end.
Qed.

Lemma run_effects evs s e :
  e ∈ effects (world s) → e ∈ effects (world (run evs s)).
Proof.
  revert s. induction evs as [|ev evs IH]; intros s H; [done|].
  rewrite run_cons. by apply IH, deliver_effects.
Qed.

Lemma deadline_escalation_witness :
  timer_due
    (timeoutId (run [StdoutData "x"; Elapse 60000]
                  (start "/tmp/in.docx" "/tmp/out" 60000 0 (mkWorld 0 ∅ [] []))))
    (run [StdoutData "x"; Elapse 60000]
       (start "/tmp/in.docx" "/tmp/out" 60000 0 (mkWorld 0 ∅ [] []))) = true
  ∧ effects (world (deliver
       (run [Elapse 5000]
          (deliver (run [StdoutData "x"; Elapse 60000]
                      (start "/tmp/in.docx" "/tmp/out" 60000 0 (mkWorld 0 ∅ [] [])))
             DeadlineFires))
       GraceFires))
    = [EStart (libreoffice "/tmp/out" "/tmp/in.docx"); EKill SIGTERM; EKill SIGKILL]
  ∧ promise (deliver
       (run ([Elapse 5000; GraceFires; StderrData "bye"] ++ [Exits (ExitSignal SIGKILL)])
          (deliver (run [StdoutData "x"; Elapse 60000]
                      (start "/tmp/in.docx" "/tmp/out" 60000 0 (mkWorld 0 ∅ [] [])))
             DeadlineFires))
       Closes)
    = Some (Rejected (ConversionTimeout 60000 65000 "x" "bye")).
Proof.
  destruct (deadline_escalation "/tmp/in.docx" "/tmp/out" 60000 0
              (mkWorld 0 ∅ [] []) [StdoutData "x"; Elapse 60000]
              eq_refl eq_refl) as (_ & _ & _ & Hgrace & Hclose).
  split; [reflexivity|]. split.
  - destruct (Hgrace [Elapse 5000] eq_refl) as [_ H]. exact (H eq_refl).
  - destruct (Hclose [Elapse 5000; GraceFires; StderrData "bye"]
                (ExitSignal SIGKILL) eq_refl eq_refl) as [_ H].
    exact H.
Defined.

(** C10.  Once the deadline timer has fired on a process that still
    existed, SIGTERM has been sent, and from then on the promise of the
    conversion can only be pending or rejected with the timeout error: no
    later event other than ['error'] can fulfil it or reject it
    differently, whatever exit code or signal the process ends with, and
    once ['close'] has been delivered the promise is settled. *)
Theorem soft_kill_always_timeout
    (inputFile outputDir : string) (timeoutMs t0 : Z) (w : World)
    (before after : list Event) :
  let s := run before (start inputFile outputDir timeoutMs t0 w) in
  timer_due (timeoutId s) s = true →
  handle (child s) = true →
  forallb not_error after = true →
  let s' := run (DeadlineFires :: after) s in
  EKill SIGTERM ∈ effects (world s')
  ∧ (∀ x, promise s' = Some x →
       ∃ d out err, x = Rejected (ConversionTimeout timeoutMs d out err))
  ∧ (∀ pdfFile, promise s' ≠ Some (Fulfilled pdfFile))
  ∧ (closed (child s') = true → is_Some (promise s')).
Proof.
  intros s Hdue Hrun Hne s'.
  assert (is_Some (timeoutId s)) as Hsome.
  { unfold timer_due in Hdue. destruct (timeoutId s); [eauto|done]. }
  pose proof (run_armed before _
                (λ _, start_armed inputFile outputDir timeoutMs t0 w) Hsome)
    as Harmed.
  destruct (run_child_ok before _
              (start_child_ok inputFile outputDir timeoutMs t0 w) Hrun)
    as [Hcode _].
  fold s in Harmed, Hcode.
  destruct (deadline_fires s Harmed Hrun Hcode Hdue) as [Heff Hto].
  apply (run_timed_out after) in Hto; [|done].
  change (run after (deliver s DeadlineFires)) with s' in Hto.
  destruct Hto as [H1 H2 H3].
  assert (Supervisor.timeoutMs s' = timeoutMs) as Htm.
  { unfold s'. destruct (run_static (DeadlineFires :: after) s) as (_ & -> & _).
    unfold s. by destruct (run_static before (start inputFile outputDir timeoutMs t0 w))
      as (_ & -> & _). }
  rewrite Htm in H2.
  split; [|split; [done|split]].
  - unfold s'. rewrite run_cons. apply run_effects. rewrite Heff. set_solver.
  - intros pdfFile Hx. destruct (H2 _ Hx) as (? & ? & ? & ?). done.
  - intros Hc. destruct (promise s') eqn:E; [eauto|]. by destruct (H3 Hc).
Qed.

Lemma soft_kill_always_timeout_witness :
  promise (run (DeadlineFires :: [StderrData "late"; Exits (ExitCode 0); Elapse 7; Closes])
             (run [Elapse 60000]
                (start "/tmp/in.docx" "/tmp/out" 60000 0 (mkWorld 0 ∅ [] []))))
  ≠ Some (Fulfilled "/tmp/out/in.pdf")
  ∧ is_Some (promise (run (DeadlineFires :: [StderrData "late"; Exits (ExitCode 0); Elapse 7; Closes])
             (run [Elapse 60000]
                (start "/tmp/in.docx" "/tmp/out" 60000 0 (mkWorld 0 ∅ [] []))))).
Proof.
  destruct (soft_kill_always_timeout "/tmp/in.docx" "/tmp/out" 60000 0
              (mkWorld 0 ∅ [] []) [Elapse 60000]
              [StderrData "late"; Exits (ExitCode 0); Elapse 7; Closes]
              eq_refl eq_refl eq_refl) as (_ & _ & Hnot & Hsettled).
  split; [apply Hnot|]. apply Hsettled. reflexivity.
Defined.







End SupervisorProofs.

(** ** The conversion paths *)
Module ServiceProofs.
Import Service Scenario.

(** C6, at a failing input.  A synchronous job whose LibreOffice run exits
    with code 1 ends with the conversion error while the output directory
    that its callback created is still on disk; the same failure on the
    path of [/api/convert] leaves no output directory behind. *)
Theorem sync_failure_leaves_output_directory :
  (sync_callback converter_fails "http://files.example/a.docx" w0).1
  = Threw (ConversionFailed (Some 1) 0
             "Error: source file could not be loaded" EmptyString)
  ∧ exists_on_disk
      (fs (sync_callback converter_fails "http://files.example/a.docx" w0).2)
      (path_join tmpdir "output_sync_0_k3j9x2m1q") = true
  ∧ (convertDocxToPdfFromUrl converter_fails "http://files.example/a.docx"
       "o1" w0).1
    = Threw (ConversionFailed (Some 1) 0
               "Error: source file could not be loaded" EmptyString)
  ∧ fs (convertDocxToPdfFromUrl converter_fails "http://files.example/a.docx"
          "o1" w0).2 = ∅.
Proof. repeat split; by vm_compute. Qed.

(** C7, at a failing input.  A job fails, the failure webhook is posted
    once, the endpoint answers 500, and the console shows the line for a
    webhook that was sent and no line that reports a failed delivery. *)
Theorem failed_job_webhook_rejection_not_logged :
  (convert_job converter_fails "http://files.example/a.docx" "o1"
     "http://shop.example/hook" "job_o1_0" w0).1 = Returned ()
  ∧ filter (λ e, is_post e = true)
      (effects (convert_job converter_fails "http://files.example/a.docx"
                  "o1" "http://shop.example/hook" "job_o1_0" w0).2)
    = [EFetch (POST "http://shop.example/hook" EmptyString
                 (BodyFailed "o1" "job_o1_0"
                    (message (ConversionFailed (Some 1) 0
                       "Error: source file could not be loaded" EmptyString))))]
  ∧ fetch_reply converter_fails
      (POST "http://shop.example/hook" EmptyString
         (BodyFailed "o1" "job_o1_0"
            (message (ConversionFailed (Some 1) 0
               "Error: source file could not be loaded" EmptyString))))
    = Response 500 "Internal Server Error" "down"
  ∧ existsb reports_delivery_failure
      (console (convert_job converter_fails "http://files.example/a.docx"
                  "o1" "http://shop.example/hook" "job_o1_0" w0).2) = false
  ∧ last (console (convert_job converter_fails "http://files.example/a.docx"
                     "o1" "http://shop.example/hook" "job_o1_0" w0).2)
    = Some (LogFailureWebhookSent "o1").
Proof. repeat split; by vm_compute. Qed.

(** C9, at a failing input.  A document URL that does not start with
    ["http"] because its scheme is in capitals is refused by the path of
    [/api/convert] without any effect, while the callback of
    [/api/convert-sync], which has no check of its own, passes it to
    [fetch], starts LibreOffice on the answer and returns the PDF.  The
    sentinel ["test"] does fail on that path, in node-fetch and with its
    error, and no process is started for it. *)
Theorem sync_path_converts_unchecked_url :
  startsWith capital_scheme_url "http" = false
  ∧ convertDocxToPdfFromUrl answers_all capital_scheme_url "o1" w0
    = (Threw InvalidDocxUrl, w0)
  ∧ fetch_reply answers_all (GET capital_scheme_url)
    = Response 200 "OK" "docx bytes"
  ∧ effects (sync_callback answers_all capital_scheme_url w0).2
    = [EFetch (GET capital_scheme_url);
       EStart (Supervisor.libreoffice
                 (path_join tmpdir "output_sync_0_k3j9x2m1q")
                 (path_join tmpdir "input_0_k3j9x2m1q.docx"))]
  ∧ (sync_callback answers_all capital_scheme_url w0).1
    = Returned (mkSyncResult true (toBase64 "pdf bytes") 9)
  ∧ (sync_callback answers_all "test" w0).1
    = Threw (RuntimeError "TypeError" "Only absolute URLs are supported")
  ∧ filter (λ e, is_start e = true)
      (effects (sync_callback answers_all "test" w0).2) = [].
Proof. repeat split; by vm_compute. Qed.

End ServiceProofs.

(** ** The earlier conversion path *)
Module LegacyProofs.
Import Legacy Scenario.

(** C8, at a failing input.  The earlier [convertDocxToPdf] writes the
    input file and then starts LibreOffice through [exec]; an order id
    that contains a double quote and semicolons makes the shell see five
    commands, the second of which is the text between the semicolons.
    [convertDocxToPdf] of server.js starts LibreOffice with [spawn] and an
    argument vector, in which the same order id stays inside one
    argument. *)
Theorem legacy_command_is_shell_interpreted :
  has_slash hostile_orderId = false
  ∧ filter (λ e, is_start e = true)
      (effects (convertDocxToPdf answers_all "http://files.example/a.docx"
                  hostile_orderId w0).2)
    = [EStart (exec (command (output_path hostile_orderId 0)
                       (input_path hostile_orderId 0)))]
  ∧ length (sh_commands (command (output_path hostile_orderId 0)
                           (input_path hostile_orderId 0))) = 5%nat
  ∧ sh_commands (command (output_path hostile_orderId 0)
                   (input_path hostile_orderId 0)) !! 1%nat
    = Some "id"
  ∧ filter (λ e, is_start e = true)
      (effects (Service.convertDocxToPdfFromUrl answers_all
                  "http://files.example/a.docx" hostile_orderId w0).2)
    = [EStart (spawn "libreoffice"
                 (Supervisor.libreoffice_args
                    (path_join tmpdir
                       ("output_" +:+ hostile_orderId +:+ "_0"))
                    (path_join tmpdir "input_0_k3j9x2m1q.docx")))].
Proof. repeat split; by vm_compute. Qed.

End LegacyProofs.

(** ** The endpoints *)
Module ServerProofs.
Import Server Scenario.

(** C3, at a failing input.  Two requests to [/api/convert] whose
    downloads have answered have their LibreOffice processes alive at the
    same time, and so have a request to [/api/convert-sync] and a request
    to [/api/convert]. *)
Theorem async_conversions_overlap :
  running (run two_async_requests (init 0))
  = [mkConversion Async "http://files.example/1.docx" Converting;
     mkConversion Async "http://files.example/2.docx" Converting]
  ∧ running (run sync_then_async_request (init 0))
    = [mkConversion Sync "http://files.example/1.docx" Converting;
       mkConversion Async "http://files.example/2.docx" Converting].
Proof. split; by vm_compute. Qed.

End ServerProofs.

(** ** The queue *)
Module QueueProofs.
Import Queue.

Section WithCallbacks.
Context {R C : Type}.
Implicit Types s : State R C.

Lemma queue_run_app (evs1 evs2 : list (Event R C)) s :
  run (evs1 ++ evs2) s = run evs2 (run evs1 s).
Proof. apply foldl_app. Qed.

Lemma queue_run_cons (ev : Event R C) evs s :
  run (ev :: evs) s = run evs (deliver s ev).
Proof. reflexivity. Qed.

Lemma init_consistent t : consistent (init (R:=R) (C:=C) t).
Proof.
  split; cbn; try done.
  - intros k. rewrite lookup_empty. split; [by intros []|lia].
Qed.

Lemma init_quiescent t : quiescent (init (R:=R) (C:=C) t).
Proof. done. Qed.

Lemma last_lookup_length {A} (l : list A) x :
  last l = Some x → l !! pred (length l) = Some x.
Proof. by rewrite last_lookup. Qed.

(** [processQueue] takes a consistent state to a consistent one that is
    quiescent. *)
Lemma processQueue_consistent s :
  consistent s → consistent (processQueue s) ∧ quiescent (processQueue s).
Proof.
  intros Hc. pose proof Hc as [Ht Hs Hp Hph Hsp Haf Hdp Hst].
  unfold processQueue.
  destruct (processing s) eqn:Hproc; cbn.
  { split; [done|]. intros Hsus. unfold phase_ok in Hph.
    rewrite Hsus in Hph. destruct Hph as [? _]. congruence. }
  destruct (queue s) as [|request rest] eqn:Hq; cbn.
  { split; [done|]. by intros _. }
  rewrite bool_decide_eq_false_2 by done.
  unfold phase_ok in Hph.
  destruct (suspended s) as [|[e|e due] [|]] eqn:Hsus;
    try done; try (destruct Hph; congruence).
  destruct Hph as (_ & Hlen & Hlast).
  split; [|done]. split; cbn.
  - rewrite map_app, <- app_assoc. exact Ht.
  - done.
  - done.
  - unfold phase_ok. cbn. split; [done|]. eauto.
  - intros i td e ts k Hd Hset.
    destruct (decide (S i < length (dispatched s))%nat) as [Hlt|Hge].
    + rewrite lookup_app_l in Hd by done. eauto.
    + assert (S i = length (dispatched s)) as Hi.
      { apply lookup_lt_Some in Hd. rewrite length_app in Hd. cbn in Hd. lia. }
      rewrite lookup_app_r in Hd by lia.
      rewrite Hi, Nat.sub_diag in Hd. cbn in Hd. simplify_eq.
      apply Hlast with k. rewrite last_lookup.
      replace (pred (length (settled s))) with i by lia. done.
  - intros i td e ts k Hd Hset.
    destruct (decide (i < length (dispatched s))%nat) as [Hlt|Hge].
    + rewrite lookup_app_l in Hd by done. eauto.
    + apply lookup_lt_Some in Hset. lia.
  - apply Forall_app. split; [done|]. by repeat constructor.
  - done.
Qed.

Lemma enqueue_consistent url cb s :
  consistent s → consistent (enqueue url cb s) ∧ quiescent (enqueue url cb s).
Proof.
  intros [Ht Hs Hp Hph Hsp Haf Hdp Hst]. unfold enqueue.
  apply processQueue_consistent. split; cbn -[seq]; try done.
  rewrite map_app, app_assoc, Ht. cbn -[seq]. by rewrite seq_S.
Qed.

Lemma ticket_of_last_dispatched s D t e :
  consistent s → dispatched s = D ++ [(t, e)] → ticket e = length D.
Proof.
  intros Hc Hd. pose proof (c_tickets s Hc) as Ht. rewrite Hd in Ht.
  rewrite map_app, <- app_assoc in Ht. cbn in Ht.
  assert (seq 0 (issued s) !! length (map (λ d : Z * Entry C, ticket d.2) D)
          = Some (ticket e)) as Hl.
  { rewrite <- Ht. by rewrite list_lookup_middle. }
  apply lookup_seq in Hl as [Hl _]. rewrite length_map in Hl. lia.
Qed.

Lemma after_callback_consistent i o s :
  consistent s → consistent (after_callback i o s).
Proof.
  intros Hc. pose proof Hc as [Ht Hs Hp Hph Hsp Haf Hdp Hst].
  unfold after_callback.
  destruct (suspended s !! i) as [[request|request due]|] eqn:Hi; try done.
  unfold phase_ok in Hph.
  destruct (suspended s) as [|[e|e due] [|]] eqn:Hsus; try done;
    destruct i; try done; cbn in Hi; simplify_eq.
  destruct Hph as (Hproc & D & t & Hd & Hlen).
  pose proof (ticket_of_last_dispatched s D t request Hc Hd) as Htk.
  assert (promises s !! ticket request = None) as Hnone.
  { destruct (promises s !! ticket request) eqn:E; [|done].
    assert (is_Some (promises s !! ticket request)) as Hsome by eauto.
    apply Hp in Hsome. lia. }
  assert (∀ x, consistent
            (mkState (queue s) (processing s)
               [AwaitCooldown request (clock s + 1000)]
               (<[ticket request := x]> (promises s)) (issued s) (clock s)
               (dispatched s) (settled s ++ [(clock s, ticket request)])))
    as Hgoal.
  { intros x. split; cbn -[seq].
    - done.
    - rewrite map_app, Hs, length_app. cbn -[seq].
      rewrite Nat.add_1_r, seq_S. cbn -[seq]. by rewrite Htk, Hlen.
    - intros k. rewrite length_app. cbn.
      destruct (decide (k = ticket request)) as [->|Hne].
      + rewrite lookup_insert_eq. split; [lia|eauto].
      + rewrite lookup_insert_ne by done. rewrite Hp. lia.
    - unfold phase_ok. cbn. split; [done|]. split.
      + rewrite length_app, Hd, length_app. cbn. lia.
      + eauto.
    - intros j td e ts k Hdj Hsj.
      destruct (decide (j < length (settled s))%nat) as [Hlt|Hge].
      + rewrite lookup_app_l in Hsj by done. eauto.
      + apply lookup_lt_Some in Hdj. rewrite Hd, length_app in Hdj.
        cbn in Hdj. lia.
    - intros j td e ts k Hdj Hsj.
      destruct (decide (j < length (settled s))%nat) as [Hlt|Hge].
      + rewrite lookup_app_l in Hsj by done. eauto.
      + assert (j = length (settled s)) as ->.
        { apply lookup_lt_Some in Hsj. rewrite length_app in Hsj.
          cbn in Hsj. lia. }
        rewrite lookup_app_r in Hsj by lia.
        rewrite Nat.sub_diag in Hsj. cbn in Hsj. simplify_eq.
        rewrite Forall_forall in Hdp.
        apply (Hdp (td, e)). by eapply list_elem_of_lookup_2.
    - done.
    - apply Forall_app. split; [done|]. by repeat constructor. }
  destruct o as [result|error]; unfold settle; cbn; rewrite Hnone, Hsus;
    exact (Hgoal _).
Qed.

Lemma after_callback_quiescent i o s :
  quiescent s → quiescent (after_callback i o s).
Proof.
  intros Hq. unfold after_callback.
  destruct (suspended s !! i) as [[request|request due]|] eqn:Hi; try done.
  unfold quiescent. cbn. intros Hnil.
  apply (f_equal length) in Hnil. rewrite length_insert in Hnil.
  apply lookup_lt_Some in Hi.
  replace (suspended (match o with
                      | Fulfilled result => settle request (Fulfilled result) s
                      | Rejected error => settle request (Rejected error) s
                      end)) with (suspended s) in Hnil by (by destruct o).
  cbn in Hnil. lia.
Qed.

Lemma after_cooldown_consistent i s :
  consistent s → quiescent s →
  consistent (after_cooldown i s) ∧ quiescent (after_cooldown i s).
Proof.
  intros Hc Hq. pose proof Hc as [Ht Hs Hp Hph Hsp Haf Hdp Hst].
  unfold after_cooldown.
  destruct (suspended s !! i) as [[request|request due]|] eqn:Hi; try done.
  destruct (due <=? clock s) eqn:Hdue; [|done].
  apply Z.leb_le in Hdue.
  unfold phase_ok in Hph.
  destruct (suspended s) as [|[e|e due'] [|]] eqn:Hsus; try done;
    destruct i; try done; cbn in Hi; simplify_eq.
  destruct Hph as (Hproc & Hlen & S0 & ts & Hset & ->).
  apply processQueue_consistent. split; cbn; try done.
  unfold phase_ok. cbn. split; [done|]. split; [done|].
  intros ts' k Hl. rewrite Hset, last_snoc in Hl. simplify_eq. done.
Qed.

Lemma elapse_consistent ms s :
  consistent s → quiescent s →
  consistent (deliver s (Elapse ms)) ∧ quiescent (deliver s (Elapse ms)).
Proof.
  intros [Ht Hs Hp Hph Hsp Haf Hdp Hst] Hq. split; [|done].
  split; cbn; try done.
  - unfold phase_ok in *. cbn.
    destruct (suspended s) as [|[e|e due] [|]]; try done.
    destruct Hph as (? & ? & Hl). repeat split; try done.
    intros ts k Hlast. specialize (Hl ts k Hlast). lia.
  - eapply Forall_impl; [exact Hdp|]. cbn. intros; lia.
  - eapply Forall_impl; [exact Hst|]. cbn. intros; lia.
Qed.

Lemma deliver_consistent s ev :
  consistent s → quiescent s →
  consistent (deliver s ev) ∧ quiescent (deliver s ev).
Proof.
  intros Hc Hq. destruct ev as [url cb|i o|i|ms].
  - by apply enqueue_consistent.
  - split; [by apply after_callback_consistent|by apply after_callback_quiescent].
  - by apply after_cooldown_consistent.
  - by apply elapse_consistent.
Qed.

Lemma run_consistent evs s :
  consistent s → quiescent s →
  consistent (run evs s) ∧ quiescent (run evs s).
Proof.
  revert s. induction evs as [|ev evs IH]; intros s Hc Hq; [done|].
  rewrite queue_run_cons. destruct (deliver_consistent s ev Hc Hq). by apply IH.
Qed.

Lemma in_flight_at_most_one s : consistent s → (length (in_flight s) ≤ 1)%nat.
Proof.
  intros Hc. pose proof (c_phase s Hc) as Hph.
  unfold phase_ok in Hph. unfold in_flight.
  destruct (suspended s) as [|[e|e due] [|]]; try done; cbn; lia.
Qed.

(** C2.  In every state the queue reaches, at most one callback is
    running; the entries dispatched so far followed by those still queued
    are the entries in the order in which they arrived; and every dispatch
    after the first happened at least 1000 ms after [resolve] or [reject]
    had been called for the entry dispatched just before it, which in turn
    happened no earlier than that entry's own dispatch. *)
Theorem one_at_a_time_in_arrival_order (t0 : Z) (evs : list (Event R C)) :
  let s := run evs (init t0) in
  (length (in_flight s) ≤ 1)%nat
  ∧ map ticket (map snd (dispatched s) ++ queue s) = seq 0 (issued s)
  ∧ ∀ i td e,
      dispatched s !! S i = Some (td, e) →
      ∃ tp ep ts,
        dispatched s !! i = Some (tp, ep)
        ∧ settled s !! i = Some (ts, ticket ep)
        ∧ tp ≤ ts ∧ ts + 1000 ≤ td.
Proof.
  intros s.
  destruct (run_consistent evs (init t0) (init_consistent t0) (init_quiescent t0))
    as [Hc Hq]. fold s in Hc, Hq.
  split; [by apply in_flight_at_most_one|]. split.
  { rewrite map_app, map_map. apply (c_tickets s Hc). }
  intros i td e Hd.
  assert (is_Some (dispatched s !! i)) as [[tp ep] Hdi].
  { apply lookup_lt_is_Some. apply lookup_lt_Some in Hd. lia. }
  assert (is_Some (settled s !! i)) as [[ts k] Hsi].
  { apply lookup_lt_is_Some. apply lookup_lt_Some in Hd.
    pose proof (c_phase s Hc) as Hph. unfold phase_ok in Hph.
    destruct (suspended s) as [|[e'|e' due] [|]]; try done.
    - destruct Hph as (_ & -> & _). lia.
    - destruct Hph as (_ & D & t & HD & ->). rewrite HD, length_app in Hd.
      cbn in Hd. lia.
    - destruct Hph as (_ & -> & _). lia. }
  assert (k = i) as ->.
  { pose proof (c_settled s Hc) as Hs.
    assert (map snd (settled s) !! i = Some k) as Hk.
    { by rewrite list_lookup_fmap, Hsi. }
    rewrite Hs in Hk. apply lookup_seq in Hk. lia. }
  assert (ticket ep = i) as Hti.
  { pose proof (c_tickets s Hc) as Ht.
    assert ((map (λ d : Z * Entry C, ticket d.2) (dispatched s)
             ++ map ticket (queue s)) !! i = Some (ticket ep)) as Hk.
    { rewrite lookup_app_l.
      - by rewrite list_lookup_fmap, Hdi.
      - rewrite length_map. by eapply lookup_lt_Some. }
    rewrite Ht in Hk. apply lookup_seq in Hk. lia. }
  exists tp, ep, ts. rewrite Hti. repeat split; try done.
  - eapply (c_after s Hc); eauto.
  - eapply (c_spaced s Hc); eauto.
Qed.

Lemma processQueue_idle s :
  processing s = false → suspended s = [] →
  pending (processQueue s) = queue s
  ∧ promises (processQueue s) = promises s
  ∧ forallb is_dispatched (suspended (processQueue s)) = true.
Proof.
  intros Hp Hs. unfold processQueue, pending, in_flight. rewrite Hp. cbn.
  destruct (queue s) as [|request rest] eqn:Hq; cbn.
  - rewrite bool_decide_eq_true_2 by done. by rewrite Hs, Hq.
  - rewrite bool_decide_eq_false_2 by done. cbn. by rewrite Hs.
Qed.

(** Letting a pending cooldown run out changes neither what is pending nor
    any promise. *)
Lemma cooldown_runs_out s :
  consistent s → quiescent s →
  let s1 := run [Elapse 1000; CooldownFires 0] s in
  forallb is_dispatched (suspended s1) = true
  ∧ pending s1 = pending s ∧ promises s1 = promises s.
Proof.
  intros Hc Hq s1. pose proof (c_phase s Hc) as Hph.
  pose proof (c_settled_past s Hc) as Hst.
  unfold phase_ok in Hph.
  destruct (suspended s) as [|[e|e due] [|]] eqn:Hsus; try done.
  - assert (s1 = deliver s (Elapse 1000)) as ->.
    { unfold s1, run. cbn. unfold after_cooldown. cbn. by rewrite Hsus. }
    unfold pending, in_flight. cbn. by rewrite Hsus.
  - assert (s1 = deliver s (Elapse 1000)) as ->.
    { unfold s1, run. cbn. unfold after_cooldown. cbn. by rewrite Hsus. }
    unfold pending, in_flight. cbn. by rewrite Hsus.
  - destruct Hph as (Hproc & Hlen & S0 & ts & Hset & ->).
    assert (ts ≤ clock s) as Hts.
    { rewrite Hset, Forall_app, Forall_singleton in Hst. by destruct Hst. }
    assert (s1 = processQueue
                   (mkState (queue s) false [] (promises s) (issued s)
                      (clock s + 1000) (dispatched s) (settled s))) as ->.
    { unfold s1, run. cbn. unfold after_cooldown. cbn. rewrite Hsus. cbn.
      change (0 `max` 1000) with 1000.
      replace (ts + 1000 <=? clock s + 1000) with true
        by (symmetry; apply Z.leb_le; lia). done. }
    match goal with
    | |- context [processQueue ?x] =>
        destruct (processQueue_idle x eq_refl eq_refl) as (H1 & H2 & H3)
    end.
    rewrite H1, H2, H3. cbn. unfold pending, in_flight. by rewrite Hsus.
Qed.

(** One callback settles and its cooldown runs out. *)
Lemma one_round s e es o :
  consistent s → quiescent s →
  forallb is_dispatched (suspended s) = true →
  pending s = e :: es →
  let s1 := run [CallbackSettles 0 o; Elapse 1000; CooldownFires 0] s in
  forallb is_dispatched (suspended s1) = true
  ∧ pending s1 = es
  ∧ promises s !! ticket e = None
  ∧ promises s1 = <[ticket e := o]> (promises s).
Proof.
  intros Hc Hq Hnc Hpend s1. pose proof (c_phase s Hc) as Hph.
  unfold phase_ok in Hph. unfold pending, in_flight in Hpend.
  destruct (suspended s) as [|[e'|e' due] [|]] eqn:Hsus; try done.
  { cbn in Hpend. rewrite Hq in Hpend; done. }
  cbn in Hpend. simplify_eq.
  destruct Hph as (Hproc & D & t & Hd & Hlen).
  pose proof (ticket_of_last_dispatched s D t e Hc Hd) as Htk.
  assert (promises s !! ticket e = None) as Hnone.
  { destruct (promises s !! ticket e) eqn:E; [|done].
    assert (is_Some (promises s !! ticket e)) as Hsome by eauto.
    apply (c_promises s Hc) in Hsome. lia. }
  assert (s1 = processQueue
                 (mkState (queue s) false [] (<[ticket e := o]> (promises s))
                    (issued s) (clock s + 1000) (dispatched s)
                    (settled s ++ [(clock s, ticket e)]))) as ->.
  { unfold s1, run. cbn. unfold after_callback. rewrite Hsus. cbn.
    assert (∀ x : Settlement R,
              match x with
              | Fulfilled result => settle e (Fulfilled result) s
              | Rejected error => settle e (Rejected error) s
              end = settle e x s) as Hx by (by intros []).
    rewrite Hx. unfold settle. cbn. rewrite Hnone, Hsus. cbn.
    unfold after_cooldown. cbn. change (0 `max` 1000) with 1000.
    replace (clock s + 1000 <=? clock s + 1000) with true
      by (symmetry; apply Z.leb_le; lia). done. }
  match goal with
  | |- context [processQueue ?x] =>
      destruct (processQueue_idle x eq_refl eq_refl) as (H1 & H2 & H3)
  end.
  rewrite H1, H2, H3. done.
Qed.

Lemma rounds_settle_all outcomes : ∀ s,
  consistent s → quiescent s →
  forallb is_dispatched (suspended s) = true →
  length outcomes = length (pending s) →
  let s' := run (outcomes ≫= λ o, [CallbackSettles 0 o; Elapse 1000;
                                   CooldownFires 0]) s in
  pending s' = []
  ∧ (∀ k x, promises s !! k = Some x → promises s' !! k = Some x)
  ∧ (∀ j e, pending s !! j = Some e → promises s' !! ticket e = outcomes !! j).
Proof.
  induction outcomes as [|o outcomes IH]; intros s Hc Hq Hnc Hlen.
  { cbn. destruct (pending s); [|done]. by repeat split. }
  destruct (pending s) as [|e es] eqn:Hpend; [done|].
  cbn in Hlen. injection Hlen as Hlen.
  intros s'. unfold s'. clear s'.
  change ((o :: outcomes) ≫= _)
    with ([CallbackSettles 0 o; Elapse (R:=R) (C:=C) 1000; CooldownFires 0]
          ++ (outcomes ≫= λ o, [CallbackSettles 0 o; Elapse 1000;
                                CooldownFires 0])).
  rewrite queue_run_app.
  destruct (one_round s e es o Hc Hq Hnc Hpend) as (Hnc1 & Hp1 & Hnone & Hprom).
  destruct (run_consistent [CallbackSettles 0 o; Elapse 1000; CooldownFires 0]
              s Hc Hq) as [Hc1 Hq1].
  set (s1 := run [CallbackSettles 0 o; Elapse 1000; CooldownFires 0] s) in *.
  rewrite <- Hp1 in Hlen.
  destruct (IH s1 Hc1 Hq1 Hnc1 Hlen) as (Hempty & Hkeep & Hval).
  split; [done|]. split.
  - intros k x Hk. apply Hkeep. rewrite Hprom.
    rewrite lookup_insert_ne; [done|]. intros <-. congruence.
  - intros [|j] e' Hj; cbn in Hj.
    + simplify_eq. cbn. apply Hkeep. rewrite Hprom. apply lookup_insert_eq.
    + cbn. apply Hval. by rewrite Hp1.
Qed.

Lemma processQueue_issued s : issued (processQueue s) = issued s.
Proof. unfold processQueue. by repeat case_match. Qed.

Lemma drain_issued outcomes s : issued (run (drain outcomes) s) = issued s.
Proof.
  assert (∀ ev : Event R C,
            match ev with Enqueue _ _ => False | _ => True end →
            ∀ s, issued (deliver s ev) = issued s) as Hstep.
  { intros [url cb|i o|i|ms] Hev s0; try done; cbn.
    - unfold after_callback. repeat case_match; done.
    - unfold after_cooldown. repeat case_match; try done.
      by rewrite processQueue_issued. }
  assert (∀ evs : list (Event R C),
            Forall (λ ev, match ev with Enqueue _ _ => False | _ => True end) evs →
            ∀ s, issued (run evs s) = issued s) as Hrun.
  { induction 1 as [|ev evs Hev Hevs IH]; intros s0; [done|].
    rewrite queue_run_cons, IH. by apply Hstep. }
  apply Hrun. unfold drain. apply Forall_app. split.
  - by repeat constructor.
  - induction outcomes as [|o outcomes IH]; [constructor|].
    cbn. by repeat constructor.
Qed.

(** C4 (as amended).  From any state the queue can reach, let the
    callbacks of the entries that are not settled yet settle one after the
    other, each followed by its cooldown, with any outcomes whatever.
    Then nothing is left pending; [resolve] or [reject] has been called
    exactly once for every promise that [enqueue] handed out, in the order
    of arrival; every entry's promise holds the outcome of its own
    callback, fulfilled with the value returned or rejected with the very
    error thrown; and promises settled before keep their settlement.
    Rejections among the outcomes change none of this. *)
Theorem every_entry_settles_once
    (t0 : Z) (evs : list (Event R C)) (outcomes : list (Settlement R)) :
  let s := run evs (init t0) in
  length outcomes = length (pending s) →
  let s' := run (drain outcomes) s in
  pending s' = []
  ∧ issued s' = issued s
  ∧ map snd (settled s') = seq 0 (issued s')
  ∧ (∀ j e, pending s !! j = Some e → promises s' !! ticket e = outcomes !! j)
  ∧ (∀ k x, promises s !! k = Some x → promises s' !! k = Some x).
Proof.
  intros s Hlen s'.
  destruct (run_consistent evs (init t0) (init_consistent t0) (init_quiescent t0))
    as [Hc Hq]. fold s in Hc, Hq.
  destruct (cooldown_runs_out s Hc Hq) as (Hnc1 & Hp1 & Hprom1).
  destruct (run_consistent [Elapse 1000; CooldownFires 0] s Hc Hq) as [Hc1 Hq1].
  set (s1 := run [Elapse 1000; CooldownFires 0] s) in *.
  assert (s' = run (outcomes ≫= λ o, [CallbackSettles 0 o; Elapse 1000;
                                      CooldownFires 0]) s1) as Hs'.
  { unfold s', drain. by rewrite queue_run_app. }
  rewrite <- Hp1 in Hlen.
  destruct (rounds_settle_all outcomes s1 Hc1 Hq1 Hnc1 Hlen)
    as (Hempty & Hkeep & Hval).
  rewrite <- Hs' in Hempty, Hkeep, Hval.
  destruct (run_consistent (drain outcomes) s Hc Hq) as [Hc' Hq'].
  fold s' in Hc', Hq'.
  split; [done|]. split; [apply drain_issued|]. split.
  - rewrite (c_settled s' Hc'). f_equal.
    pose proof (c_tickets s' Hc') as Ht. pose proof (c_phase s' Hc') as Hph.
    unfold pending, in_flight in Hempty. unfold phase_ok in Hph.
    apply app_eq_nil in Hempty as [Hfl Hqueue].
    rewrite Hqueue, app_nil_r in Ht. apply (f_equal length) in Ht.
    rewrite length_map, length_seq in Ht.
    destruct (suspended s') as [|[e|e due] [|]]; try done.
    + destruct Hph as (_ & -> & _). done.
    + destruct Hph as (_ & -> & _). done.
  - split.
    + intros j e Hj. apply Hval. by rewrite Hp1.
    + intros k x Hk. apply Hkeep. by rewrite Hprom1.
Qed.

End WithCallbacks.

Lemma every_entry_settles_once_witness :
  promises
    (run (drain [Rejected (DownloadFailedSync 404); Fulfilled "pdf";
                 Rejected InvalidDocxUrl])
       (run [Enqueue "http://files.example/a.docx" 1%nat;
             Enqueue "http://files.example/b.docx" 2%nat;
             Enqueue "test" 3%nat] (init 0))) !! 1%nat
  = Some (Fulfilled "pdf")
  ∧ pending
      (run (drain [Rejected (DownloadFailedSync 404); Fulfilled "pdf";
                   Rejected InvalidDocxUrl])
         (run [Enqueue "http://files.example/a.docx" 1%nat;
               Enqueue "http://files.example/b.docx" 2%nat;
               Enqueue "test" 3%nat] (init 0))) = [].
Proof.
  destruct (every_entry_settles_once (R:=string) (C:=nat) 0
              [Enqueue "http://files.example/a.docx" 1%nat;
               Enqueue "http://files.example/b.docx" 2%nat;
               Enqueue "test" 3%nat]
              [Rejected (DownloadFailedSync 404); Fulfilled "pdf";
               Rejected InvalidDocxUrl] eq_refl)
    as (Hempty & _ & _ & Hval & _).
  split; [|exact Hempty].
  exact (Hval 1%nat (mkEntry "http://files.example/b.docx" 2%nat 1%nat) eq_refl).
Defined.

(** The queue passes a thrown error on; it does not replace it by an
    internal-error outcome. *)
Lemma thrown_error_is_not_wrapped :
  promises
    (run (drain [Rejected (DownloadFailedSync 404)])
       (run [Enqueue "http://files.example/a.docx" tt]
          (init (R:=Spec.Outcome) (C:=unit) 0))) !! 0%nat
  = Some (Rejected (DownloadFailedSync 404))
  ∧ ∀ msg durationMs,
      promises
        (run (drain [Rejected (DownloadFailedSync 404)])
           (run [Enqueue "http://files.example/a.docx" tt]
              (init (R:=Spec.Outcome) (C:=unit) 0))) !! 0%nat
      ≠ Some (Fulfilled (Spec.Failed Spec.InternalError msg durationMs)).
Proof.
  assert (promises
            (run (drain [Rejected (DownloadFailedSync 404)])
               (run [Enqueue "http://files.example/a.docx" tt]
                  (init (R:=Spec.Outcome) (C:=unit) 0))) !! 0%nat
          = Some (Rejected (DownloadFailedSync 404))) as H by (by vm_compute).
  split; [exact H|]. intros msg d. rewrite H. discriminate.
Qed.

End QueueProofs.

(** ** More about the supervisor *)
Module SupervisorMore.
Import Supervisor SupervisorProofs SupervisorRuns.

Lemma unlink_now p w r w' : unlink p w = (r, w') → now w' = now w.
Proof. intros H. by apply unlink_effects in H as [_ ?]. Qed.

Lemma deliver_timers_ok base T s ev :
  timers_ok base T s → timers_ok base T (deliver s ev).
Proof.
  intros H. pose proof H as (ks & Heff & Hcase).
  destruct ev as [ms| d | d | name c | | | st | | e].
  - (* Elapse *)
    exists ks. cbn. split; [done|].
    destruct (timeoutId s), (graceTimer s); try done.
    + destruct Hcase as (? & ? & ?). repeat split; try done. lia.
    + unfold kill_stage in *. destruct Hcase as [?|[[? ?]|[? ?]]]; [by left| |].
      * right; left. split; [done|lia].
      * right; right. split; [done|lia].
  - exists ks. unfold deliver. destruct (closed (child s)); [done|].
    unfold on_stdout, log. cbn. done.
  - exists ks. unfold deliver. destruct (closed (child s)); [done|].
    unfold on_stderr, log. cbn. done.
  - exists ks. unfold deliver. destruct (handle (child s)) eqn:Hh.
    2:{ split; [done|]. by rewrite ?Hh. }
    cbn. split; [done|]. rewrite Hh.
    destruct (timeoutId s), (graceTimer s); try done.
  - (* DeadlineFires *)
    unfold deliver, timer_due.
    destruct (timeoutId s) as [due|] eqn:Ht; [|exact H].
    destruct (due <=? now (world s)) eqn:Hdue; [|exact H].
    apply Z.leb_le in Hdue. destruct Hcase as (-> & Hg & ->).
    unfold on_timeout. cbn.
    destruct (negb (killed (child s)) && bool_decide (exitCode (child s) = None))
      eqn:Hcond.
    + unfold child_kill. cbn. destruct (handle (child s)) eqn:Hh; cbn.
      * exists [SIGTERM]. cbn. rewrite Heff. cbn. rewrite app_nil_r.
        split; [done|]. repeat split; try lia. by right.
      * exists []. cbn. rewrite Heff. cbn. split; [done|].
        repeat split; try lia. by left.
    + exists []. cbn. rewrite Heff, Hg. split; [done|]. by left.
  - (* GraceFires *)
    unfold deliver, timer_due.
    destruct (graceTimer s) as [g|] eqn:Hg; [|exact H].
    destruct (g <=? now (world s)) eqn:Hdue; [|exact H].
    apply Z.leb_le in Hdue.
    destruct (timeoutId s) as [due|] eqn:Ht; [by destruct Hcase as (_ & ? & _)|].
    destruct Hcase as (Hge & Hnow & Hks).
    unfold on_grace. cbn.
    destruct (exitCode (child s)) eqn:Hcode; cbn.
    + exists ks. cbn. rewrite Ht. cbn. split; [done|].
      destruct Hks as [[-> _]| ->]; [by left|right; left; done].
    + unfold child_kill. cbn. destruct (handle (child s)) eqn:Hh; cbn.
      * destruct Hks as [[_ ?]| ->]; [done|].
        exists [SIGTERM; SIGKILL]. cbn. rewrite Heff, Ht. cbn.
        rewrite <- app_assoc. split; [done|]. right; right. split; [done|lia].
      * exists ks. cbn. rewrite Ht. cbn. split; [done|].
        destruct Hks as [[-> _]| ->]; [by left|right; left; done].
  - (* Exits *)
    unfold deliver. destruct (handle (child s)) eqn:Hh; [|exact H].
    exists ks. cbn. split; [done|].
    destruct (timeoutId s), (graceTimer s); try done.
    destruct Hcase as (? & ? & Hks). repeat split; try done.
    destruct Hks as [[-> _]| ->]; [left|by right].
    split; [done|]. by destruct st.
  - (* Closes *)
    unfold deliver.
    destruct (negb (handle (child s)) && negb (closed (child s))) eqn:Hen;
      [|exact H].
    apply andb_prop in Hen as [Hh _]. apply negb_true_iff in Hh.
    exists ks.
    assert (∀ s', effects (world s') = effects (world s) →
                  now (world s') = now (world s) →
                  timeoutId s' = None → graceTimer s' = graceTimer s →
                  handle (child s') = false →
                  effects (world s') = base ++ map EKill ks
                  ∧ match timeoutId s', graceTimer s' with
                    | Some due, g => due = T ∧ g = None ∧ ks = []
                    | None, Some g =>
                        T + 5000 ≤ g ∧ T ≤ now (world s')
                        ∧ ((ks = [] ∧ handle (child s') = false) ∨ ks = [SIGTERM])
                    | None, None => kill_stage T (now (world s')) ks
                    end) as Hgen.
    { intros s' He Hn Ht Hg Hh'. rewrite He, Ht, Hg, Hn, Hh'.
      split; [done|].
      destruct (timeoutId s), (graceTimer s); try done.
      - destruct Hcase as (_ & ? & _). done.
      - destruct Hcase as (_ & _ & ->). by left.
      - destruct Hcase as (? & ? & [[? ?]|?]); repeat split; auto. }
    apply Hgen; unfold on_close, find_pdf, cleanup_input, reject, resolve,
      settle, log; cbn;
      destruct (unlink (inputFile s) (world s)) as [[u| |] w'] eqn:Hu;
      pose proof (unlink_effects _ _ _ _ Hu) as [He Hn];
      repeat (case_match; cbn; try done).
  - (* ErrorEvent *)
    unfold deliver. destruct (closed (child s)) eqn:Hc; [exact H|].
    exists ks.
    unfold on_error, cleanup_input, reject, settle, log. cbn.
    destruct (unlink (inputFile s) (say (LogSpawnError e) (world s)))
      as [[u| |] w'] eqn:Hu;
      pose proof (unlink_effects _ _ _ _ Hu) as [He Hn]; cbn in He, Hn;
      repeat (case_match; cbn; try done);
      rewrite ?He, ?Hn; (split; [done|]);
      destruct (timeoutId s), (graceTimer s); try done;
      try (by destruct Hcase as (_ & ? & _));
      try (destruct Hcase as (_ & _ & ->); by left);
      try (simplify_eq; done).
Qed.

Lemma run_timers_ok base T evs s :
  timers_ok base T s → timers_ok base T (run evs s).
Proof.
  revert s. induction evs as [|ev evs IH]; intros s H; [done|].
  rewrite run_cons. by apply IH, deliver_timers_ok.
Qed.

Lemma start_timers_ok i o t t0 w :
  timers_ok (effects w ++ [EStart (libreoffice o i)]) (now w + t)
    (start i o t t0 w).
Proof. exists []. cbn. by rewrite app_nil_r. Qed.

Lemma timers_ok_stage base T s :
  timers_ok base T s →
  ∃ ks, effects (world s) = base ++ map EKill ks
        ∧ kill_stage T (now (world s)) ks.
Proof.
  intros (ks & Heff & Hcase). exists ks. split; [done|].
  destruct (timeoutId s), (graceTimer s); try done.
  - destruct Hcase as (_ & _ & ->). by left.
  - destruct Hcase as (_ & _ & ->). by left.
  - destruct Hcase as (_ & ? & [[-> _]| ->]); [by left|right; by left].
Qed.

(** X1.  Whatever the event loop delivers after the spawn, the effects of
    a conversion are the spawn followed by no signal, by SIGTERM, or by
    SIGTERM and then SIGKILL: never SIGKILL alone, never a signal twice. *)
Theorem signals_in_order
    (inputFile outputDir : string) (timeoutMs t0 : Z) (w : World)
    (evs : list Event) :
  ∃ ks,
    effects (world (run evs (start inputFile outputDir timeoutMs t0 w)))
    = effects w ++ EStart (libreoffice outputDir inputFile) :: map EKill ks
    ∧ (ks = [] ∨ ks = [SIGTERM] ∨ ks = [SIGTERM; SIGKILL]).
Proof.
  destruct (timers_ok_stage _ _ _
              (run_timers_ok _ _ evs _
                 (start_timers_ok inputFile outputDir timeoutMs t0 w)))
    as (ks & Heff & Hst).
  exists ks. rewrite Heff, <- app_assoc. split; [done|].
  destruct Hst as [?|[[? _]|[? _]]]; auto.
Qed.


Lemma cleanup_input_fields s :
  promise (cleanup_input s) = promise s
  ∧ processKilled (cleanup_input s) = processKilled s
  ∧ stdout (cleanup_input s) = stdout s ∧ stderr (cleanup_input s) = stderr s
  ∧ startTime (cleanup_input s) = startTime s
  ∧ timeoutMs (cleanup_input s) = timeoutMs s
  ∧ now (world (cleanup_input s)) = now (world s).
Proof.
  unfold cleanup_input.
  destruct (unlink (inputFile s) (world s)) as [[u| |] w'] eqn:Hu;
    apply unlink_now in Hu; cbn; by rewrite Hu.
Qed.

(** X3.  When ['close'] arrives for a process that was not killed by the
    deadline and did not exit with code 0 (a non-zero code, or no code at
    all because a signal ended it), the promise is rejected with the
    conversion-failed error, which carries the exit code, the time since
    the start, and the stderr and stdout text captured so far. *)
Theorem close_after_failed_exit (s : State) :
  handle (child s) = false → closed (child s) = false →
  exitCode (child s) ≠ Some 0 →
  processKilled s = false → promise s = None →
  promise (deliver s Closes)
  = Some (Rejected (ConversionFailed (exitCode (child s))
                      (now (world s) - startTime s) (stderr s) (stdout s))).
Proof.
  intros Hh Hc He Hk Hp. unfold deliver. rewrite Hh, Hc. cbn.
  unfold on_close. cbn.
  set (s1 := set_timeoutId None (set_child (mark_closed (child s)) s)).
  destruct (cleanup_input_fields s1) as (Hp1 & Hk1 & Ho1 & He1 & _).
  cbn in Hp1, Hk1, Ho1, He1. rewrite Hk1, Hk.
  rewrite bool_decide_eq_true_2 by done.
  unfold reject, settle. cbn. rewrite Hp1, Hp. cbn. by rewrite Ho1, He1.
Qed.

Lemma close_after_failed_exit_witness :
  promise (deliver (run [StderrData "Error: source file could not be loaded";
                         Elapse 1200; Exits (ExitCode 77)]
                      (start "/tmp/in.docx" "/tmp/out" 60000 0
                         (mkWorld 0 disk [] []))) Closes)
  = Some (Rejected (ConversionFailed (Some 77) 1200
                      "Error: source file could not be loaded" EmptyString)).
Proof.
  exact (close_after_failed_exit
           (run [StderrData "Error: source file could not be loaded";
                 Elapse 1200; Exits (ExitCode 77)]
              (start "/tmp/in.docx" "/tmp/out" 60000 0 (mkWorld 0 disk [] [])))
           eq_refl eq_refl ltac:(discriminate) eq_refl eq_refl).
Defined.

Lemma append_empty (x : string) : x +:+ EmptyString = x.
Proof.
  induction x as [|a x IH]; [done|].
  change (String a (x +:+ EmptyString) = String a x). by rewrite IH.
Qed.

Lemma append_assoc (a b c : string) : (a +:+ b) +:+ c = a +:+ b +:+ c.
Proof.
  induction a as [|x a IH]; [done|].
  change (String x ((a +:+ b) +:+ c) = String x (a +:+ b +:+ c)).
  by rewrite IH.
Qed.

Lemma deliver_streams s ev :
  not_close ev = true → closed (child s) = false →
  closed (child (deliver s ev)) = false
  ∧ stdout (deliver s ev)
    = stdout s +:+ concat_chunks (stdout_chunks [ev])
  ∧ stderr (deliver s ev)
    = stderr s +:+ concat_chunks (stderr_chunks [ev]).
Proof.
  pose proof append_empty as Hnil.
  intros Hev Hc. destruct ev; try done; unfold deliver; rewrite ?Hc; cbn;
    rewrite ?Hnil; try done.
  - by destruct (handle (child s)).
  - destruct (timer_due (timeoutId s) s); [|done].
    unfold on_timeout, child_kill. cbn. by repeat case_match.
  - destruct (timer_due (graceTimer s) s); [|done].
    unfold on_grace, child_kill. cbn. by repeat case_match.
  - destruct (handle (child s)); [|done]. cbn. by destruct st.
  - destruct (cleanup_input_fields (log (LogSpawnError e) (set_timeoutId None s)))
      as (_ & _ & Ho & He & _).
    unfold on_error, reject, settle. cbn.
    assert (closed (child (cleanup_input
                             (log (LogSpawnError e) (set_timeoutId None s))))
            = false) as Hcl.
    { unfold cleanup_input. by repeat case_match. }
    by repeat case_match.
Qed.

Lemma concat_chunks_app l1 l2 :
  concat_chunks (l1 ++ l2) = concat_chunks l1 +:+ concat_chunks l2.
Proof.
  induction l1 as [|x l1 IH]; [done|].
  change (x +:+ concat_chunks (l1 ++ l2)
          = (x +:+ concat_chunks l1) +:+ concat_chunks l2).
  by rewrite IH, append_assoc.
Qed.

(** X4.  Until ['close'], the captured stdout is the concatenation, in
    order of arrival, of every chunk the child wrote to its standard
    output, and likewise for stderr; no other event touches them. *)
Theorem output_is_accumulated
    (inputFile outputDir : string) (timeoutMs t0 : Z) (w : World)
    (evs : list Event) :
  forallb not_close evs = true →
  let s := run evs (start inputFile outputDir timeoutMs t0 w) in
  stdout s = concat_chunks (stdout_chunks evs)
  ∧ stderr s = concat_chunks (stderr_chunks evs).
Proof.
  intros Hev.
  assert (∀ s, closed (child s) = false →
               closed (child (run evs s)) = false
               ∧ stdout (run evs s) = stdout s +:+ concat_chunks (stdout_chunks evs)
               ∧ stderr (run evs s) = stderr s +:+ concat_chunks (stderr_chunks evs))
    as Hgen.
  { induction evs as [|ev evs IH]; intros s Hc.
    { repeat split; [done| |]; symmetry; apply append_empty. }
    cbn in Hev. apply andb_prop in Hev as [Hev1 Hev2].
    destruct (deliver_streams s ev Hev1 Hc) as (Hc1 & Ho1 & He1).
    destruct (IH Hev2 (deliver s ev) Hc1) as (Hc2 & Ho2 & He2).
    rewrite run_cons. split; [done|].
    change (ev :: evs) with ([ev] ++ evs).
    unfold stdout_chunks, stderr_chunks in *.
    rewrite !omap_app, !concat_chunks_app, Ho2, He2, Ho1, He1.
    by rewrite !append_assoc. }
  intros s. destruct (Hgen (start inputFile outputDir timeoutMs t0 w) eq_refl)
    as (_ & Ho & He). done.
Qed.

Lemma output_is_accumulated_witness :
  stdout (run [StdoutData "convert "; StderrData "warn"; Elapse 5;
               StdoutData "/tmp/in.docx"; Exits (ExitCode 0)]
            (start "/tmp/in.docx" "/tmp/out" 60000 0 (mkWorld 0 disk [] [])))
  = "convert /tmp/in.docx".
Proof.
  exact (proj1 (output_is_accumulated "/tmp/in.docx" "/tmp/out" 60000 0
                  (mkWorld 0 disk [] [])
                  [StdoutData "convert "; StderrData "warn"; Elapse 5;
                   StdoutData "/tmp/in.docx"; Exits (ExitCode 0)] eq_refl)).
Defined.

Lemma remove_path_gone p (f : FS) : remove_path p f !! p = None.
Proof. unfold remove_path. by rewrite map_lookup_imap, lookup_delete_eq. Qed.

Lemma cleanup_input_removes s :
  is_directory (fs (world s)) (inputFile s) = false →
  fs (world (cleanup_input s)) !! inputFile s = None.
Proof.
  unfold is_directory, cleanup_input, unlink.
  destruct (fs (world s) !! inputFile s) as [[c|names]|] eqn:E; try done; cbn.
  intros _. apply remove_path_gone.
Qed.

Lemma on_close_fs code sig s :
  fs (world (on_close code sig s))
  = fs (world (cleanup_input (set_timeoutId None s))).
Proof.
  unfold on_close, find_pdf, reject, resolve, settle, log; cbn.
  by repeat case_match.
Qed.

Lemma on_error_fs e s :
  fs (world (on_error e s))
  = fs (world (cleanup_input (log (LogSpawnError e) (set_timeoutId None s)))).
Proof. unfold on_error, reject, settle; cbn. by repeat case_match. Qed.

(** X5.  Both ways in which a conversion can end, ['close'] and ['error'],
    remove the staged input file: unless a directory stands at its path,
    nothing is left there afterwards, whatever the outcome. *)
Theorem input_file_removed (s : State) (ev : Event) :
  match ev with
  | Closes => handle (child s) = false
  | ErrorEvent _ => True
  | _ => False
  end →
  closed (child s) = false →
  is_directory (fs (world s)) (inputFile s) = false →
  exists_on_disk (fs (world (deliver s ev))) (inputFile s) = false.
Proof.
  intros Hev Hc Hdir. unfold exists_on_disk.
  destruct ev; try done; unfold deliver; rewrite ?Hev, ?Hc; cbn.
  - rewrite on_close_fs.
    pose proof (cleanup_input_removes
                  (set_timeoutId None (set_child (mark_closed (child s)) s))
                  Hdir) as Hgone.
    change (inputFile (set_timeoutId None _)) with (inputFile s) in Hgone.
    by rewrite Hgone.
  - rewrite on_error_fs.
    pose proof (cleanup_input_removes
                  (log (LogSpawnError e) (set_timeoutId None s)) Hdir) as Hgone.
    change (inputFile (log _ _)) with (inputFile s) in Hgone.
    by rewrite Hgone.
Qed.

Lemma input_file_removed_witness :
  exists_on_disk
    (fs (world (deliver
                  (run [Elapse 60000; DeadlineFires; Exits (ExitSignal SIGTERM)]
                     (start "/tmp/in.docx" "/tmp/out" 60000 0
                        (mkWorld 0 disk [] []))) Closes)))
    "/tmp/in.docx" = false.
Proof.
  exact (input_file_removed
           (run [Elapse 60000; DeadlineFires; Exits (ExitSignal SIGTERM)]
              (start "/tmp/in.docx" "/tmp/out" 60000 0 (mkWorld 0 disk [] [])))
           Closes eq_refl eq_refl eq_refl).
Defined.

Lemma settle_stable y s x :
  promise s = Some x → promise (settle y s) = Some x.
Proof. intros H. unfold settle. by rewrite H. Qed.

Lemma find_pdf_stable s x :
  promise s = Some x → promise (find_pdf s) = Some x.
Proof.
  intros H. unfold find_pdf, reject, resolve.
  repeat case_match; try done; by apply settle_stable.
Qed.

Lemma deliver_promise_stable s ev x :
  promise s = Some x → promise (deliver s ev) = Some x.
Proof.
  intros Hp.
  destruct ev; unfold deliver; cbn; repeat case_match; try done.
  - unfold on_timeout, child_kill. cbn. by repeat case_match.
  - unfold on_grace, child_kill. cbn. by repeat case_match.
  - unfold on_close.
    match goal with
    | |- context [cleanup_input ?y] =>
        destruct (cleanup_input_fields y) as (Hq & _); cbn in Hq
    end.
    repeat case_match; unfold reject;
      try apply settle_stable; try apply find_pdf_stable; cbn; congruence.
  - unfold on_error, reject.
    match goal with
    | |- context [cleanup_input ?y] =>
        destruct (cleanup_input_fields y) as (Hq & _); cbn in Hq
    end.
    apply settle_stable. congruence.
Qed.

Lemma run_promise_stable evs s x :
  promise s = Some x → promise (run evs s) = Some x.
Proof.
  revert s. induction evs as [|ev evs IH]; intros s H; [done|].
  rewrite run_cons. by apply IH, deliver_promise_stable.
Qed.

(** With both timers off, nothing leaves the process any more. *)
Lemma deliver_timers_off s ev :
  timeoutId s = None → graceTimer s = None →
  timeoutId (deliver s ev) = None ∧ graceTimer (deliver s ev) = None
  ∧ effects (world (deliver s ev)) = effects (world s).
Proof.
  intros Ht Hg.
  destruct ev; unfold deliver, timer_due; rewrite ?Ht, ?Hg; cbn;
    repeat case_match; try done;
    unfold on_close, on_error, find_pdf, cleanup_input, reject, resolve,
      settle, log; cbn;
    repeat (case_match; cbn in *; simplify_eq; try done);
    repeat match goal with
           | E : unlink _ _ = _ |- _ =>
               apply unlink_effects in E as [E _]; cbn in E
           end; try done.
Qed.

Lemma run_timers_off evs s :
  timeoutId s = None → graceTimer s = None →
  effects (world (run evs s)) = effects (world s).
Proof.
  revert s. induction evs as [|ev evs IH]; intros s Ht Hg; [done|].
  rewrite run_cons.
  destruct (deliver_timers_off s ev Ht Hg) as (Ht1 & Hg1 & He1).
  by rewrite IH.
Qed.

(** X6.  When LibreOffice cannot be started and ['error'] is the first
    event, the promise is rejected with that error and stays so, the
    deadline timer is cancelled, and no signal is ever sent, whatever
    follows. *)
Theorem spawn_error_rejects
    (inputFile outputDir : string) (timeoutMs t0 : Z) (w : World)
    (e : JsError) (evs : list Event) :
  let s := run (ErrorEvent e :: evs)
             (start inputFile outputDir timeoutMs t0 w) in
  promise s = Some (Rejected e)
  ∧ timeoutId s = None
  ∧ effects (world s) = effects w ++ [EStart (libreoffice outputDir inputFile)].
Proof.
  intros s. unfold s. rewrite run_cons.
  set (s1 := deliver (start inputFile outputDir timeoutMs t0 w) (ErrorEvent e)).
  assert (promise s1 = Some (Rejected e) ∧ timeoutId s1 = None
          ∧ graceTimer s1 = None
          ∧ effects (world s1)
            = effects w ++ [EStart (libreoffice outputDir inputFile)])
    as (Hp & Ht & Hg & He).
  { unfold s1, deliver. cbn. unfold on_error, cleanup_input, reject, settle, log.
    cbn.
    destruct (unlink inputFile _) as [[u| |] w'] eqn:Hu;
      apply unlink_effects in Hu as [Hu _]; cbn in Hu; cbn; by rewrite ?Hu. }
  clearbody s1. split; [by apply run_promise_stable|]. split.
  - clear Hp He. revert s1 Ht Hg.
    induction evs as [|ev evs IH]; intros s1 Ht Hg; [done|].
    rewrite run_cons.
    destruct (deliver_timers_off s1 ev Ht Hg) as (Ht1 & Hg1 & _). by apply IH.
  - by rewrite run_timers_off.
Qed.

(** X7.  A process that has exited while the deadline timer was still
    pending is never signalled: ['close'] cancels the timer, and whatever
    the event loop delivers afterwards, the effects of the conversion
    remain the spawn alone. *)
Theorem close_cancels_deadline
    (inputFile outputDir : string) (timeoutMs t0 : Z) (w : World)
    (before after : list Event) :
  let s := run before (start inputFile outputDir timeoutMs t0 w) in
  is_Some (timeoutId s) →
  handle (child s) = false →
  effects (world (run (Closes :: after) s))
  = effects w ++ [EStart (libreoffice outputDir inputFile)].
Proof.
  intros s Ht Hh.
  destruct (run_armed before _
              (λ _, start_armed inputFile outputDir timeoutMs t0 w) Ht)
    as [Hp Hk Hkd Hg Ho].
  fold s in Hp, Hk, Hkd, Hg, Ho.
  pose proof (run_timers_ok _ _ before _
                (start_timers_ok inputFile outputDir timeoutMs t0 w)) as Hok.
  fold s in Hok. destruct Hok as (ks & Heff & Hcase).
  destruct (timeoutId s) as [due|] eqn:Hdue; [|by destruct Ht].
  destruct Hcase as (_ & _ & ->). cbn in Heff. rewrite app_nil_r in Heff.
  rewrite run_cons.
  assert (timeoutId (deliver s Closes) = None
          ∧ graceTimer (deliver s Closes) = None
          ∧ effects (world (deliver s Closes)) = effects (world s))
    as (Ht1 & Hg1 & He1).
  { unfold deliver. rewrite Hh, Ho. cbn.
    unfold on_close, find_pdf, cleanup_input, reject, resolve, settle, log.
    cbn.
    destruct (unlink _ _) as [[u| |] w'] eqn:Hu;
      apply unlink_effects in Hu as [Hu _]; cbn in Hu; cbn;
      repeat (case_match; cbn; try done). }
  by rewrite run_timers_off, He1.
Qed.

Lemma close_cancels_deadline_witness :
  effects (world (run (Closes :: [Elapse 70000; DeadlineFires; GraceFires])
                    (run [ChildWrites "in.pdf" "pdf"; Exits (ExitCode 0)]
                       (start "/tmp/in.docx" "/tmp/out" 60000 0
                          (mkWorld 0 disk [] [])))))
  = [] ++ [EStart (libreoffice "/tmp/out" "/tmp/in.docx")].
Proof.
  exact (close_cancels_deadline "/tmp/in.docx" "/tmp/out" 60000 0
           (mkWorld 0 disk [] [])
           [ChildWrites "in.pdf" "pdf"; Exits (ExitCode 0)]
           [Elapse 70000; DeadlineFires; GraceFires]
           (mk_is_Some _ _ eq_refl) eq_refl).
Defined.

End SupervisorMore.
Module ServiceEquations.
Import Service ServiceParts.

Lemma convertDocxToPdfFromUrl_eq env docxUrl orderId w :
  convertDocxToPdfFromUrl env docxUrl orderId w
  = if unusable_url docxUrl then (Threw InvalidDocxUrl, w)
    else try_catch (download_and_convert env docxUrl (async_outputDir orderId w))
           (clean_and_rethrow (async_outputDir orderId w)) w.
Proof. unfold convertDocxToPdfFromUrl. by destruct (unusable_url docxUrl). Qed.


End ServiceEquations.

(** ** More about the conversion paths *)
Module ServiceMore.
Import Service ServiceParts ServiceEquations Awaited.

Lemma silent_ret {A} (a : A) : silent (mret a).
Proof. done. Qed.

Lemma silent_throw {A} e : silent (throw (A:=A) e).
Proof. done. Qed.

Lemma silent_bind {A B} (m : M A) (k : A → M B) :
  silent m → (∀ a, silent (k a)) → silent (m ≫= k).
Proof.
  intros Hm Hk w. unfold mbind, M_bind. specialize (Hm w).
  destruct (m w) as [[a|e|] w1]; cbn in *; [|done..].
  by rewrite Hk.
Qed.

Lemma silent_try_catch {A} (m : M A) (h : JsError → M A) :
  silent m → (∀ e, silent (h e)) → silent (try_catch m h).
Proof.
  intros Hm Hh w. unfold try_catch. specialize (Hm w).
  destruct (m w) as [[a|e|] w1]; cbn in *; [done| |done].
  by rewrite Hh.
Qed.

Lemma silent_console_log l : silent (console_log l).
Proof. done. Qed.

Lemma silent_Date_now : silent Date_now.
Proof. done. Qed.

Lemma silent_readFile p : silent (readFile p).
Proof. intros w. unfold readFile. by repeat case_match. Qed.

Lemma silent_readdir p : silent (readdir p).
Proof. intros w. unfold readdir. by repeat case_match. Qed.

Lemma silent_unlink p : silent (unlink p).
Proof. intros w. unfold unlink. by repeat case_match. Qed.

Lemma silent_rm p : silent (rm p).
Proof. intros w. unfold rm. by repeat case_match. Qed.

Lemma silent_mkdir env p : silent (mkdir env p).
Proof. intros w. unfold mkdir. by repeat case_match. Qed.

Lemma silent_writeFile env p d : silent (writeFile env p d).
Proof. intros w. unfold writeFile. by repeat case_match. Qed.

Create HintDb silent.
#[local] Hint Resolve silent_ret silent_throw silent_console_log
  silent_Date_now silent_readFile silent_readdir silent_unlink silent_rm
  silent_mkdir silent_writeFile : silent.
#[local] Hint Extern 2 (silent (_ ≫= _)) =>
  apply silent_bind; [|intros ?] : silent.
#[local] Hint Extern 2 (silent (try_catch _ _)) =>
  apply silent_try_catch; [|intros ?] : silent.

(** What a supervised conversion lets out of the process: nothing when the
    input file cannot be written, else the spawn and then the signals. *)
Lemma supervised_effects env buf dir t w :
  ∃ ks,
    escalation ks
    ∧ (effects (Supervisor.convertDocxToPdf env buf dir t w).2 = effects w
       ∨ effects (Supervisor.convertDocxToPdf env buf dir t w).2
         = effects w
           ++ EStart (Supervisor.libreoffice dir
                        (path_join tmpdir (Supervisor.input_name env (now w))))
              :: map EKill ks).
Proof.
  unfold Supervisor.convertDocxToPdf.
  pose proof (silent_writeFile env
                (path_join tmpdir (Supervisor.input_name env (now w))) buf w)
    as Hw.
  destruct (writeFile env _ buf w) as [[u|e|] w1] eqn:E; cbn in Hw.
  - set (i := path_join tmpdir (Supervisor.input_name env (now w))).
    set (w2 := say (LogInputWritten i (buffer_length buf)) w1).
    destruct (SupervisorMore.timers_ok_stage _ _ _
                (SupervisorMore.run_timers_ok _ _
                   (schedule env (Supervisor.libreoffice dir i)) _
                   (SupervisorMore.start_timers_ok i dir t (now w) w2)))
      as (ks & Heff & Hst).
    exists ks. split.
    { destruct Hst as [?|[[? _]|[? _]]]; unfold escalation; auto. }
    right. cbn. rewrite Heff. cbn. rewrite Hw. by rewrite <- app_assoc.
  - exists []. split; [by left|]. by left.
  - exists []. split; [by left|]. by left.
Qed.

Lemma fetch_effects env r w :
  effects (fetch env r w).2 = effects w ++ [EFetch r] ∧ now (fetch env r w).2 = now w.
Proof. unfold fetch. by destruct (fetch_reply env r). Qed.

Lemma silent_read_and_clean outputDir pdfPath :
  silent (read_and_clean outputDir pdfPath).
Proof. unfold read_and_clean. auto 10 with silent. Qed.

Lemma silent_clean_and_rethrow outputDir error :
  silent (clean_and_rethrow outputDir error).
Proof. unfold clean_and_rethrow. auto 10 with silent. Qed.

(** How a bind continues, by the completion of its first part. *)
Lemma bind_cases {A B} (m : M A) (k : A → M B) w :
  (∃ a w1, m w = (Returned a, w1) ∧ (m ≫= k) w = k a w1)
  ∨ (∃ e w1, m w = (Threw e, w1) ∧ (m ≫= k) w = (Threw e, w1))
  ∨ (∃ w1, m w = (Pending, w1) ∧ (m ≫= k) w = (Pending, w1)).
Proof.
  unfold mbind, M_bind. destruct (m w) as [[a|e|] w1]; eauto 10.
Qed.

Lemma try_catch_cases {A} (m : M A) (h : JsError → M A) w :
  (∃ a w1, m w = (Returned a, w1) ∧ try_catch m h w = (Returned a, w1))
  ∨ (∃ e w1, m w = (Threw e, w1) ∧ try_catch m h w = h e w1)
  ∨ (∃ w1, m w = (Pending, w1) ∧ try_catch m h w = (Pending, w1)).
Proof.
  unfold try_catch. destruct (m w) as [[a|e|] w1]; eauto 10.
Qed.

Ltac bind_step a w1 Hm :=
  match goal with
  | |- context [(?m ≫= ?k) ?w] =>
      destruct (bind_cases m k w)
        as [(a & w1 & Hm & ->) | [(a & w1 & Hm & ->) | (w1 & Hm & ->)]]
  end.

(** What the [try] block of [convertDocxToPdfFromUrl] lets out. *)
Lemma download_and_convert_effects env docxUrl outputDir w :
  added (download_and_convert env docxUrl outputDir) w = [EFetch (GET docxUrl)]
  ∨ ∃ ks,
      escalation ks
      ∧ added (download_and_convert env docxUrl outputDir) w
        = EFetch (GET docxUrl)
          :: EStart (Supervisor.libreoffice outputDir
                       (path_join tmpdir (Supervisor.input_name env (now w))))
          :: map EKill ks.
Proof.
  unfold added, download_and_convert.
  bind_step u w1 H1; [|done..]. injection H1 as <- <-.
  destruct (fetch_effects env (GET docxUrl) (say (LogDownloading docxUrl) w))
    as [Hf Hfn]. cbn in Hf, Hfn.
  bind_step r w2 H2; rewrite H2 in Hf, Hfn; cbn in Hf, Hfn.
  2,3: left; cbn; rewrite Hf; by rewrite drop_app_length.
  destruct r as [[status statusText] buffer].
  destruct (response_ok status); cbn [negb].
  2:{ left. cbn. rewrite Hf. by rewrite drop_app_length. }
  bind_step u1 w3 H3; [|done..]. injection H3 as <- <-.
  pose proof (silent_mkdir env outputDir
                (say (LogDownloaded (buffer_length buffer)) w2)) as Hm.
  assert (now (mkdir env outputDir
                 (say (LogDownloaded (buffer_length buffer)) w2)).2 = now w)
    as Hmn.
  { unfold mkdir. repeat case_match; cbn; done. }
  bind_step u2 w4 H4; rewrite H4 in Hm, Hmn; cbn in Hm, Hmn.
  2,3: left; cbn; rewrite Hm, Hf; by rewrite drop_app_length.
  bind_step u3 w5 H5; [|done..]. injection H5 as <- <-.
  destruct (supervised_effects env buffer outputDir 60000 (say LogRunning w4))
    as (ks & Hks & Hsup).
  cbn [now say] in Hsup. rewrite Hmn in Hsup.
  assert (∀ c : World, effects c
               = effects (Supervisor.convertDocxToPdf env buffer outputDir 60000
                            (say LogRunning w4)).2 →
               drop (length (effects w)) (effects c) = [EFetch (GET docxUrl)]
               ∨ ∃ ks0, escalation ks0
                   ∧ drop (length (effects w)) (effects c)
                     = EFetch (GET docxUrl)
                       :: EStart (Supervisor.libreoffice outputDir
                                    (path_join tmpdir
                                       (Supervisor.input_name env (now w))))
                       :: map EKill ks0) as Hfin.
  { intros c ->. cbn [effects say] in Hsup. rewrite Hm, Hf in Hsup.
    destruct Hsup as [-> | ->].
    - left. by rewrite drop_app_length.
    - right. exists ks. split; [done|].
      rewrite <- app_assoc. by rewrite drop_app_length. }
  bind_step p w6 H6.
  - apply Hfin. rewrite H6. cbn. apply silent_read_and_clean.
  - apply Hfin. by rewrite H6.
  - apply Hfin. by rewrite H6.
Qed.

(** X8.  The effects of [convertDocxToPdfFromUrl] are, in this order: at
    most one download of [docxUrl]; after it at most one LibreOffice
    process, started by [spawn] with the output directory and the input
    file as its last two arguments; after that the signals of the
    deadline.  It posts no webhook and starts nothing through a shell. *)
Theorem conversion_effects_in_order
    (env : Env) (docxUrl orderId : string) (w : World) :
  added (convertDocxToPdfFromUrl env docxUrl orderId) w = []
  ∨ added (convertDocxToPdfFromUrl env docxUrl orderId) w
    = [EFetch (GET docxUrl)]
  ∨ ∃ ks,
      escalation ks
      ∧ added (convertDocxToPdfFromUrl env docxUrl orderId) w
        = EFetch (GET docxUrl)
          :: EStart (spawn "libreoffice"
                       ["--headless"; "--convert-to"; "pdf"; "--outdir";
                        async_outputDir orderId w;
                        path_join tmpdir (Supervisor.input_name env (now w))])
          :: map EKill ks.
Proof.
  unfold added. rewrite convertDocxToPdfFromUrl_eq.
  destruct (unusable_url docxUrl).
  { left. cbn. by rewrite drop_all. }
  right.
  assert (effects (try_catch
                     (download_and_convert env docxUrl (async_outputDir orderId w))
                     (clean_and_rethrow (async_outputDir orderId w)) w).2
          = effects (download_and_convert env docxUrl
                       (async_outputDir orderId w) w).2) as ->.
  { destruct (try_catch_cases
                (download_and_convert env docxUrl (async_outputDir orderId w))
                (clean_and_rethrow (async_outputDir orderId w)) w)
      as [(a & w1 & Hm & ->) | [(e & w1 & Hm & ->) | (w1 & Hm & ->)]];
      rewrite Hm; cbn; [done| |done]. apply silent_clean_and_rethrow. }
  apply (download_and_convert_effects env docxUrl (async_outputDir orderId w) w).
Qed.

Lemma rm_spec p w : ∃ w', rm p w = (Returned (), w') ∧ fs w' !! p = None.
Proof.
  unfold rm. destruct (fs w !! p) as [[c|names]|] eqn:E; eexists; split;
    try reflexivity; cbn; try done; apply SupervisorMore.remove_path_gone.
Qed.

Lemma clean_and_rethrow_spec dir error w :
  ∃ w', clean_and_rethrow dir error w = (Threw error, w') ∧ fs w' !! dir = None.
Proof.
  destruct (rm_spec dir w) as (w' & Hrm & Hgone).
  exists w'. unfold clean_and_rethrow, try_catch, mbind, M_bind, throw.
  by rewrite Hrm.
Qed.

Lemma read_and_clean_returned dir p w b w' :
  read_and_clean dir p w = (Returned b, w') →
  fs w' !! dir = None ∧ fs w !! p = Some (File b).
Proof.
  unfold read_and_clean. intros H.
  destruct (readFile p w) as [[c|e|] w1] eqn:Hr;
    unfold mbind at 1, M_bind at 1 in H; rewrite Hr in H; [|done..].
  assert (w1 = w ∧ fs w !! p = Some (File c)) as [-> Hfile].
  { unfold readFile in Hr. repeat case_match; by simplify_eq. }
  assert (unlink p (say (LogPdfRead (buffer_length c)) w)
          = (Returned (), set_fs (remove_path p (fs w))
                            (say (LogPdfRead (buffer_length c)) w))) as Hu.
  { unfold unlink. cbn. by rewrite Hfile. }
  destruct (rm_spec dir (set_fs (remove_path p (fs w))
                           (say (LogPdfRead (buffer_length c)) w)))
    as (w2 & Hrm & Hgone).
  unfold mbind, M_bind, console_log, try_catch, mret, M_ret in H.
  rewrite Hu, Hrm in H. cbn in H. by simplify_eq.
Qed.

Lemma download_and_convert_returned env docxUrl outputDir w :
  match download_and_convert env docxUrl outputDir w with
  | (Returned _, w') => fs w' !! outputDir = None
  | _ => True
  end.
Proof.
  unfold download_and_convert.
  bind_step u w1 H1; [|done..]. injection H1 as <- <-.
  bind_step r w2 H2; [|done..].
  destruct r as [[status statusText] buffer].
  destruct (response_ok status); cbn [negb]; [|done].
  bind_step u1 w3 H3; [|done..]. injection H3 as <- <-.
  bind_step u2 w4 H4; [|done..].
  bind_step u3 w5 H5; [|done..]. injection H5 as <- <-.
  bind_step p w6 H6; [|done..].
  destruct (read_and_clean outputDir p w6) as [[b|e|] w7] eqn:Hrc; [|done..].
  by apply read_and_clean_returned in Hrc as [? _].
Qed.

(** X9.  Whenever [convertDocxToPdfFromUrl] gets past its check of the URL
    and comes to an end, by returning the PDF or by throwing, its output
    directory is not on disk afterwards. *)
Theorem output_directory_removed
    (env : Env) (docxUrl orderId : string) (w : World) :
  unusable_url docxUrl = false →
  (convertDocxToPdfFromUrl env docxUrl orderId w).1 ≠ Pending →
  exists_on_disk (fs (convertDocxToPdfFromUrl env docxUrl orderId w).2)
    (async_outputDir orderId w) = false.
Proof.
  intros Hurl. rewrite convertDocxToPdfFromUrl_eq, Hurl. unfold exists_on_disk.
  pose proof (download_and_convert_returned env docxUrl
                (async_outputDir orderId w) w) as Hret.
  destruct (try_catch_cases
              (download_and_convert env docxUrl (async_outputDir orderId w))
              (clean_and_rethrow (async_outputDir orderId w)) w)
    as [(a & w1 & Hm & ->) | [(e & w1 & Hm & ->) | (w1 & Hm & ->)]];
    rewrite Hm in Hret; cbn.
  - intros _. by rewrite Hret.
  - destruct (clean_and_rethrow_spec (async_outputDir orderId w) e w1)
      as (w' & -> & Hgone). cbn. intros _. by rewrite Hgone.
  - done.
Qed.

Lemma output_directory_removed_witness :
  exists_on_disk
    (fs (convertDocxToPdfFromUrl Scenario.converter_fails
           "http://files.example/a.docx" "o1" Scenario.w0).2)
    (async_outputDir "o1" Scenario.w0) = false.
Proof.
  exact (output_directory_removed Scenario.converter_fails
           "http://files.example/a.docx" "o1" Scenario.w0 eq_refl
           ltac:(vm_compute; discriminate)).
Defined.

(** X10.  When the download of the document fails, by a network error or
    by an answer outside 200..299, [convertDocxToPdfFromUrl] throws the
    network error itself or the download-failed error with the status
    and its text, and the request is the only thing that has left the
    process: LibreOffice is not started. *)
Theorem failed_download_stops_conversion
    (env : Env) (docxUrl orderId : string) (w : World) :
  unusable_url docxUrl = false →
  match fetch_reply env (GET docxUrl) with
  | NetworkError e =>
      (convertDocxToPdfFromUrl env docxUrl orderId w).1 = Threw e
      ∧ added (convertDocxToPdfFromUrl env docxUrl orderId) w
        = [EFetch (GET docxUrl)]
  | Response status statusText _ =>
      response_ok status = false →
      (convertDocxToPdfFromUrl env docxUrl orderId w).1
      = Threw (DownloadFailed status statusText)
      ∧ added (convertDocxToPdfFromUrl env docxUrl orderId) w
        = [EFetch (GET docxUrl)]
  end.
Proof.
  intros Hurl. unfold added. rewrite convertDocxToPdfFromUrl_eq, Hurl.
  assert (∀ e,
            download_and_convert env docxUrl (async_outputDir orderId w) w
            = (Threw e, emit (EFetch (GET docxUrl))
                          (say (LogDownloading docxUrl) w)) →
            (try_catch (download_and_convert env docxUrl
                          (async_outputDir orderId w))
               (clean_and_rethrow (async_outputDir orderId w)) w).1 = Threw e
            ∧ drop (length (effects w))
                (effects (try_catch (download_and_convert env docxUrl
                                       (async_outputDir orderId w))
                            (clean_and_rethrow (async_outputDir orderId w)) w).2)
              = [EFetch (GET docxUrl)]) as Hgen.
  { intros e He. unfold try_catch. rewrite He.
    destruct (clean_and_rethrow_spec (async_outputDir orderId w) e
                (emit (EFetch (GET docxUrl)) (say (LogDownloading docxUrl) w)))
      as (w' & Hc & _).
    pose proof (silent_clean_and_rethrow (async_outputDir orderId w) e
                  (emit (EFetch (GET docxUrl)) (say (LogDownloading docxUrl) w)))
      as Hs.
    unfold clean_and_rethrow in *. rewrite Hc in *. cbn in Hs. cbn.
    split; [done|]. rewrite Hs. by rewrite drop_app_length. }
  destruct (fetch_reply env (GET docxUrl)) as [e|status statusText body] eqn:Hr.
  - apply Hgen. unfold download_and_convert, mbind, M_bind, console_log, fetch.
    by rewrite Hr.
  - intros Hok. apply Hgen.
    unfold download_and_convert, mbind, M_bind, console_log, fetch.
    rewrite Hr. cbn. by rewrite Hok.
Qed.

Lemma failed_download_stops_conversion_witness :
  (convertDocxToPdfFromUrl
     (mkEnv (λ _, Response 404 "Not Found" "missing") (λ _, [])
        (λ _, ExecDone EmptyString EmptyString []) (λ _, "r") (λ _, true) None)
     "http://files.example/gone.docx" "o1" Scenario.w0).1
  = Threw (DownloadFailed 404 "Not Found").
Proof.
  exact (proj1 (failed_download_stops_conversion
                  (mkEnv (λ _, Response 404 "Not Found" "missing") (λ _, [])
                     (λ _, ExecDone EmptyString EmptyString []) (λ _, "r")
                     (λ _, true) None)
                  "http://files.example/gone.docx" "o1" Scenario.w0
                  eq_refl eq_refl)).
Defined.

Lemma notify_completed_spec env orderId jobId callbackUrl pdf w :
  (notify_completed env orderId jobId callbackUrl pdf w).1 = Returned ()
  ∧ effects (notify_completed env orderId jobId callbackUrl pdf w).2
    = effects w
      ++ [EFetch (POST callbackUrl (secret_header env)
                    (BodyCompleted orderId jobId (toBase64 pdf)))].
Proof.
  unfold notify_completed, mbind, M_bind, console_log, try_catch, fetch.
  destruct (fetch_reply env _) as [e|status statusText body]; cbn; [done|].
  by destruct (response_ok status).
Qed.

Lemma notify_failed_spec env orderId jobId callbackUrl error w :
  (notify_failed env orderId jobId callbackUrl error w).1 = Returned ()
  ∧ effects (notify_failed env orderId jobId callbackUrl error w).2
    = effects w
      ++ [EFetch (POST callbackUrl (secret_header env)
                    (BodyFailed orderId jobId (message error)))].
Proof.
  unfold notify_failed, mbind, M_bind, console_log, try_catch, fetch.
  by destruct (fetch_reply env _) as [e|status statusText body].
Qed.

Lemma convert_job_spec
    (env : Env) (docxUrl orderId callbackUrl jobId : string) (w : World) :
  match (convertDocxToPdfFromUrl env docxUrl orderId w).1 with
  | Returned pdf =>
      (convert_job env docxUrl orderId callbackUrl jobId w).1 = Returned ()
      ∧ effects (convert_job env docxUrl orderId callbackUrl jobId w).2
        = effects (convertDocxToPdfFromUrl env docxUrl orderId w).2
          ++ [EFetch (POST callbackUrl (secret_header env)
                        (BodyCompleted orderId jobId (toBase64 pdf)))]
  | Threw error =>
      (convert_job env docxUrl orderId callbackUrl jobId w).1 = Returned ()
      ∧ effects (convert_job env docxUrl orderId callbackUrl jobId w).2
        = effects (convertDocxToPdfFromUrl env docxUrl orderId w).2
          ++ [EFetch (POST callbackUrl (secret_header env)
                        (BodyFailed orderId jobId (message error)))]
  | Pending =>
      (convert_job env docxUrl orderId callbackUrl jobId w).1 = Pending
      ∧ effects (convert_job env docxUrl orderId callbackUrl jobId w).2
        = effects (convertDocxToPdfFromUrl env docxUrl orderId w).2
  end.
Proof.
  unfold convert_job, then_catch, try_catch, mbind, M_bind.
  destruct (convertDocxToPdfFromUrl env docxUrl orderId w) as [[pdf|e|] w1];
    cbn [fst snd].
  - pose proof (notify_completed_spec env orderId jobId callbackUrl pdf w1)
      as [H1 H2].
    destruct (notify_completed env orderId jobId callbackUrl pdf w1)
      as [[u|e|] w2]; cbn in H1, H2; done.
  - apply notify_failed_spec.
  - done.
Qed.

(** X11.  The promise chain of [/api/convert] never rejects.  When the
    conversion returns a PDF, the chain adds exactly one POST to the
    callback URL, with status completed and the PDF in base64; when the
    conversion throws, it adds exactly one POST with status failed and the
    message of the error; in both cases whatever the callback server
    answers.  While the conversion is pending nothing is posted. *)
Theorem one_webhook_per_finished_job
    (env : Env) (docxUrl orderId callbackUrl jobId : string) (w : World) :
  (∀ e, (convert_job env docxUrl orderId callbackUrl jobId w).1 ≠ Threw e)
  ∧ effects (convert_job env docxUrl orderId callbackUrl jobId w).2
    = effects (convertDocxToPdfFromUrl env docxUrl orderId w).2
      ++ match (convertDocxToPdfFromUrl env docxUrl orderId w).1 with
         | Returned pdf =>
             [EFetch (POST callbackUrl (secret_header env)
                        (BodyCompleted orderId jobId (toBase64 pdf)))]
         | Threw error =>
             [EFetch (POST callbackUrl (secret_header env)
                        (BodyFailed orderId jobId (message error)))]
         | Pending => []
         end.
Proof.
  pose proof (convert_job_spec env docxUrl orderId callbackUrl jobId w) as H.
  destruct ((convertDocxToPdfFromUrl env docxUrl orderId w).1) as [pdf|e|];
    destruct H as [H1 H2]; rewrite H1, H2; (split; [done|]);
    by rewrite ?app_nil_r.
Qed.





(** X13.  When the download fails in the callback of [/api/convert-sync],
    the callback throws the network error itself or the download-failed
    error with the status; the request is the only thing that has left
    the process, and the file system is as it was: no directory has been
    created and no file written. *)
Theorem sync_failed_download (env : Env) (docxUrl : string) (w : World) :
  match fetch_reply env (GET docxUrl) with
  | NetworkError e =>
      (sync_callback env docxUrl w).1 = Threw e
      ∧ added (sync_callback env docxUrl) w = [EFetch (GET docxUrl)]
      ∧ fs (sync_callback env docxUrl w).2 = fs w
  | Response status _ _ =>
      response_ok status = false →
      (sync_callback env docxUrl w).1 = Threw (DownloadFailedSync status)
      ∧ added (sync_callback env docxUrl) w = [EFetch (GET docxUrl)]
      ∧ fs (sync_callback env docxUrl w).2 = fs w
  end.
Proof.
  unfold added, sync_callback, try_catch, mbind, M_bind, console_log, fetch,
    throw.
  destruct (fetch_reply env (GET docxUrl)) as [e|status statusText body];
    cbn.
  - by rewrite drop_app_length.
  - intros ->. cbn. by rewrite drop_app_length.
Qed.

Lemma sync_failed_download_witness :
  (sync_callback
     (mkEnv (λ _, Response 503 "Service Unavailable" "busy") (λ _, [])
        (λ _, ExecDone EmptyString EmptyString []) (λ _, "r") (λ _, true) None)
     "http://files.example/a.docx" Scenario.w0).1
  = Threw (DownloadFailedSync 503).
Proof.
  exact (proj1 (sync_failed_download
                  (mkEnv (λ _, Response 503 "Service Unavailable" "busy")
                     (λ _, []) (λ _, ExecDone EmptyString EmptyString [])
                     (λ _, "r") (λ _, true) None)
                  "http://files.example/a.docx" Scenario.w0 eq_refl)).
Defined.

End ServiceMore.

(** ** The route handlers *)
Module RoutesMore.
Import Service Routes Awaited.

(** X14.  [/api/convert] answers 200 with the job id as soon as its three
    fields are present, also for a document URL that the conversion
    rejects at once: then the answer is still "started", and the only
    thing that leaves the process is one webhook with status failed and
    the invalid-URL message; nothing is downloaded, nothing is spawned,
    and the file system is untouched. *)
Theorem async_endpoint_accepts_unusable_url
    (env : Env) (docxUrl orderId callbackUrl : string) (w : World) :
  docxUrl ≠ EmptyString → orderId ≠ EmptyString → callbackUrl ≠ EmptyString →
  unusable_url docxUrl = true →
  let h := api_convert env (Some docxUrl) (Some orderId) (Some callbackUrl) w in
  response h
  = Some (mkResponse 200
            (Started ("job_" +:+ orderId +:+ "_" +:+ pretty (now w))))
  ∧ drop (length (effects w)) (effects (world h))
    = [EFetch (POST callbackUrl (secret_header env)
                 (BodyFailed orderId
                    ("job_" +:+ orderId +:+ "_" +:+ pretty (now w))
                    "Invalid DOCX URL: Only absolute URLs are supported"))]
  ∧ fs (world h) = fs w.
Proof.
  intros Hd Ho Hc Hurl h. unfold h, api_convert, Server.falsy.
  rewrite !bool_decide_eq_false_2 by done. cbn [orb].
  split; [done|]. cbn [world].
  unfold convert_job, then_catch, try_catch, mbind, M_bind,
    convertDocxToPdfFromUrl. rewrite Hurl. cbn.
  unfold notify_failed, mbind, M_bind, console_log, try_catch, fetch.
  destruct (fetch_reply env _); cbn; by rewrite drop_app_length.
Qed.

Lemma async_endpoint_accepts_unusable_url_witness :
  response (api_convert Scenario.answers_all (Some "health-check") (Some "o1")
              (Some "http://shop.example/hook") Scenario.w0)
  = Some (mkResponse 200 (Started ("job_" +:+ "o1" +:+ "_" +:+ pretty 0))).
Proof.
  exact (proj1 (async_endpoint_accepts_unusable_url Scenario.answers_all
                  "health-check" "o1" "http://shop.example/hook" Scenario.w0
                  ltac:(discriminate) ltac:(discriminate) ltac:(discriminate)
                  eq_refl)).
Defined.

(** X15.  When the download fails with an HTTP status outside 200..299,
    [/api/convert-sync] answers 500 with the error text "Failed to download
    DOCX: " followed by the status, and nothing but the download request
    has left the process. *)
Theorem sync_endpoint_reports_failed_download
    (env : Env) (docxUrl : string) (w : World) :
  docxUrl ≠ EmptyString →
  match fetch_reply env (GET docxUrl) with
  | Response status _ _ =>
      response_ok status = false →
      response (api_convert_sync env (Some docxUrl) w)
      = Some (mkResponse 500
                (Failure ("Failed to download DOCX: " +:+ pretty status)))
      ∧ drop (length (effects w))
          (effects (world (api_convert_sync env (Some docxUrl) w)))
        = [EFetch (GET docxUrl)]
  | NetworkError _ => True
  end.
Proof.
  intros Hd.
  destruct (fetch_reply env (GET docxUrl)) as [e|status statusText body] eqn:Hr;
    [done|].
  intros Hok. unfold api_convert_sync, Server.falsy.
  rewrite bool_decide_eq_false_2 by done.
  unfold sync_callback, try_catch, mbind, M_bind, console_log, fetch, throw.
  rewrite Hr. cbn. rewrite Hok. cbn. by rewrite drop_app_length.
Qed.

Lemma sync_endpoint_reports_failed_download_witness :
  response
    (api_convert_sync
       (mkEnv (λ _, Response 404 "Not Found" "missing") (λ _, [])
          (λ _, ExecDone EmptyString EmptyString []) (λ _, "r") (λ _, true) None)
       (Some "http://files.example/gone.docx") Scenario.w0)
  = Some (mkResponse 500 (Failure ("Failed to download DOCX: " +:+ pretty 404))).
Proof.
  exact (proj1 (sync_endpoint_reports_failed_download
                  (mkEnv (λ _, Response 404 "Not Found" "missing") (λ _, [])
                     (λ _, ExecDone EmptyString EmptyString []) (λ _, "r")
                     (λ _, true) None)
                  "http://files.example/gone.docx" Scenario.w0
                  ltac:(discriminate) eq_refl)).
Defined.

(** X16.  The earlier [/api/convert-sync] does fail fast: for a document
    URL that is a sentinel or does not start with "http" it answers 500
    with the invalid-URL message, and the world is as it was before the
    request: nothing downloaded, nothing written, nothing started. *)
Theorem legacy_sync_endpoint_fails_fast
    (env : Env) (docxUrl : string) (w : World) :
  docxUrl ≠ EmptyString →
  unusable_url docxUrl = true →
  response (legacy_api_convert_sync env (Some docxUrl) w)
  = Some (mkResponse 500
            (Failure "Invalid DOCX URL: Only absolute URLs are supported"))
  ∧ world (legacy_api_convert_sync env (Some docxUrl) w) = w.
Proof.
  intros Hd Hurl. unfold legacy_api_convert_sync, Server.falsy.
  rewrite bool_decide_eq_false_2 by done.
  unfold Legacy.convertDocxToPdf. by rewrite Hurl.
Qed.

Lemma legacy_sync_endpoint_fails_fast_witness :
  world (legacy_api_convert_sync Scenario.answers_all (Some "test") Scenario.w0)
  = Scenario.w0.
Proof.
  exact (proj2 (legacy_sync_endpoint_fails_fast Scenario.answers_all "test"
                  Scenario.w0 ltac:(discriminate) eq_refl)).
Defined.

End RoutesMore.

(** ** More about the queue *)
Module QueueMore.
Import Queue QueueProofs.

Section WithCallbacks.
Context {R C : Type}.
Implicit Types s : State R C.

Lemma reachable_consistent t0 (evs : list (Event R C)) :
  consistent (run evs (init t0)) ∧ quiescent (run evs (init t0)).
Proof. apply run_consistent; [apply init_consistent|apply init_quiescent]. Qed.

(** X17.  [enqueue] on a queue at rest calls the callback at once: the new
    entry is dispatched at the current time and nothing stays queued. *)
Theorem enqueue_at_rest_dispatches
    (t0 : Z) (evs : list (Event R C)) (url : string) (cb : C) :
  let s := run evs (init t0) in
  suspended s = [] →
  dispatched (enqueue url cb s)
  = dispatched s ++ [(clock s, mkEntry url cb (issued s))]
  ∧ queue (enqueue url cb s) = []
  ∧ in_flight (enqueue url cb s) = [mkEntry url cb (issued s)].
Proof.
  intros s Hs. destruct (reachable_consistent t0 evs) as [Hc Hq].
  fold s in Hc, Hq. pose proof (c_phase s Hc) as Hph.
  unfold phase_ok in Hph. rewrite Hs in Hph. destruct Hph as (Hproc & _).
  specialize (Hq Hs). unfold enqueue, processQueue, in_flight. cbn.
  rewrite Hproc, Hq, Hs. cbn. done.
Qed.

(** X18.  [enqueue] on a queue that is busy, with a callback running or a
    cooldown pending, calls nothing: the entry goes to the end of the
    queue and the running activation is left as it is. *)
Theorem enqueue_while_busy_waits
    (t0 : Z) (evs : list (Event R C)) (url : string) (cb : C) :
  let s := run evs (init t0) in
  suspended s ≠ [] →
  dispatched (enqueue url cb s) = dispatched s
  ∧ queue (enqueue url cb s) = queue s ++ [mkEntry url cb (issued s)]
  ∧ suspended (enqueue url cb s) = suspended s.
Proof.
  intros s Hs. destruct (reachable_consistent t0 evs) as [Hc Hq].
  fold s in Hc, Hq. pose proof (c_phase s Hc) as Hph.
  unfold phase_ok in Hph.
  assert (processing s = true) as Hproc.
  { destruct (suspended s) as [|[e|e due] [|]]; try done; by destruct Hph. }
  unfold enqueue, processQueue. cbn. by rewrite Hproc.
Qed.

(** X19.  No entry is lost or settled twice: in every state the queue
    reaches, the promises handed out so far are numbered from 0; those
    below the number of settlements are exactly the settled ones, and the
    others are, in order, exactly the entries still pending. *)
Theorem every_ticket_settled_or_pending (t0 : Z) (evs : list (Event R C)) :
  let s := run evs (init t0) in
  (length (settled s) ≤ issued s)%nat
  ∧ (∀ k, is_Some (promises s !! k) ↔ (k < length (settled s))%nat)
  ∧ map ticket (pending s)
    = seq (length (settled s)) (issued s - length (settled s)).
Proof.
  intros s. destruct (reachable_consistent t0 evs) as [Hc Hq].
  fold s in Hc, Hq.
  pose proof (c_phase s Hc) as Hph. pose proof (c_tickets s Hc) as Ht.
  assert (length (dispatched s) + length (queue s) = issued s)%nat as Hlen.
  { apply (f_equal length) in Ht.
    by rewrite length_app, !length_map, length_seq in Ht. }
  assert (∀ n (l1 l2 : list nat) m,
            l1 ++ l2 = seq 0 m → length l1 = n → l2 = seq n (m - n)) as Hsplit.
  { intros n l1 l2 m Heq Hn.
    assert ((n ≤ m)%nat) as Hle.
    { apply (f_equal length) in Heq. rewrite length_app, length_seq in Heq. lia. }
    replace m with (n + (m - n))%nat in Heq by lia.
    rewrite seq_app in Heq. cbn in Heq.
    apply app_inj_1 in Heq as [_ ?]; [done|]. by rewrite length_seq. }
  unfold phase_ok in Hph. unfold pending, in_flight.
  split; [|split; [apply (c_promises s Hc)|]].
  - destruct (suspended s) as [|[e|e due] [|]]; try done.
    + destruct Hph as (_ & -> & _). lia.
    + destruct Hph as (_ & D & t & HD & ->). rewrite HD, length_app in Hlen.
      cbn in Hlen. lia.
    + destruct Hph as (_ & -> & _). lia.
  - destruct (suspended s) as [|[e|e due] [|]] eqn:Hsus; try done; cbn.
    + destruct Hph as (_ & Hl & _). rewrite Hl.
      apply (Hsplit _ _ _ _ Ht). by rewrite length_map.
    + destruct Hph as (_ & D & t & HD & Hl). rewrite Hl.
      rewrite HD, map_app, <- app_assoc in Ht. cbn in Ht.
      apply (Hsplit _ _ _ _ Ht). by rewrite length_map.
    + destruct Hph as (_ & Hl & _). rewrite Hl.
      apply (Hsplit _ _ _ _ Ht). by rewrite length_map.
Qed.

(** X20.  The queue has no deadline of its own: as long as the callback
    of the first entry does not settle, whatever else happens (further
    requests, timers, time passing), that entry remains the only one ever
    dispatched and no promise is settled. *)
Theorem unsettled_callback_blocks_queue (t0 : Z) (evs : list (Event R C)) :
  forallb QueueRuns.never_settles evs = true →
  let s := run evs (init t0) in
  (length (dispatched s) ≤ 1)%nat
  ∧ settled s = []
  ∧ promises s = ∅
  ∧ length (queue s) = (issued s - 1)%nat.
Proof.
  intros Hev s.
  assert (∀ s0 : State R C,
            (settled s0 = [] ∧ promises s0 = ∅
             ∧ ((suspended s0 = [] ∧ processing s0 = false ∧ dispatched s0 = []
                 ∧ queue s0 = [] ∧ issued s0 = 0%nat)
                ∨ (∃ e t, suspended s0 = [AwaitCallback e]
                          ∧ processing s0 = true ∧ dispatched s0 = [(t, e)]
                          ∧ S (length (queue s0)) = issued s0))) →
            let s1 := run evs s0 in
            settled s1 = [] ∧ promises s1 = ∅
            ∧ ((suspended s1 = [] ∧ processing s1 = false ∧ dispatched s1 = []
                ∧ queue s1 = [] ∧ issued s1 = 0%nat)
               ∨ (∃ e t, suspended s1 = [AwaitCallback e]
                         ∧ processing s1 = true ∧ dispatched s1 = [(t, e)]
                         ∧ S (length (queue s1)) = issued s1))) as Hinv.
  { induction evs as [|ev evs IH]; intros s0 H0; [done|].
    cbn in Hev. apply andb_prop in Hev as [Hev1 Hev2].
    rewrite queue_run_cons. apply (IH Hev2). clear IH Hev2.
    destruct H0 as (Hset & Hprom & Hcase).
    destruct ev as [url cb|i o|i|ms]; [|done| |].
    - unfold deliver, enqueue, processQueue. cbn.
      destruct Hcase as [(Hs & Hp & Hd & Hq & Hi)|(e & t & Hs & Hp & Hd & Hi)];
        rewrite Hp; cbn.
      + rewrite Hq. cbn. rewrite Hset, Hprom, Hs, Hd, Hi.
        repeat split; try done. right. eauto 10.
      + rewrite Hset, Hprom, Hs, Hd. repeat split; try done. right.
        exists e, t. repeat split; try done. rewrite length_app. cbn. lia.
    - unfold deliver, after_cooldown.
      destruct Hcase as [(Hs & Hp & Hd & Hq & Hi)|(e & t & Hs & Hp & Hd & Hi)];
        rewrite Hs.
      + rewrite lookup_nil. repeat split; try done. by left.
      + destruct i; cbn; (repeat split; try done); right; eauto 10.
    - cbn. repeat split; done. }
  destruct (Hinv (init t0)) as (Hset & Hprom & Hcase).
  { repeat split; try done. by left. }
  fold s in Hset, Hprom, Hcase. repeat split; try done.
  - destruct Hcase as [(_ & _ & -> & _)|(e & t & _ & _ & -> & _)]; cbn; lia.
  - destruct Hcase as [(_ & _ & _ & -> & ->)|(e & t & _ & _ & _ & <-)]; cbn; lia.
Qed.

End WithCallbacks.

Lemma unsettled_callback_blocks_queue_witness :
  dispatched (run [Enqueue "http://files.example/a.docx" 1%nat;
                   Enqueue "http://files.example/b.docx" 2%nat;
                   Elapse 3600000; CooldownFires 0;
                   Enqueue "http://files.example/c.docx" 3%nat]
                (init (R:=string) 0))
  = [(0, mkEntry "http://files.example/a.docx" 1%nat 0%nat)]
  ∧ settled (run [Enqueue "http://files.example/a.docx" 1%nat;
                  Enqueue "http://files.example/b.docx" 2%nat;
                  Elapse 3600000; CooldownFires 0;
                  Enqueue "http://files.example/c.docx" 3%nat]
               (init (R:=string) 0)) = [].
Proof.
  destruct (unsettled_callback_blocks_queue (R:=string) 0
              [Enqueue "http://files.example/a.docx" 1%nat;
               Enqueue "http://files.example/b.docx" 2%nat;
               Elapse 3600000; CooldownFires 0;
               Enqueue "http://files.example/c.docx" 3%nat] eq_refl)
    as (_ & H & _).
  split; [reflexivity|exact H].
Defined.

Lemma enqueue_at_rest_dispatches_witness :
  in_flight (enqueue "http://files.example/b.docx" 2%nat
               (run [Enqueue "http://files.example/a.docx" 1%nat;
                     CallbackSettles 0 (Fulfilled "pdf"); Elapse 1000;
                     CooldownFires 0] (init (R:=string) 0)))
  = [mkEntry "http://files.example/b.docx" 2%nat 1%nat].
Proof.
  destruct (enqueue_at_rest_dispatches (R:=string) 0
              [Enqueue "http://files.example/a.docx" 1%nat;
               CallbackSettles 0 (Fulfilled "pdf"); Elapse 1000;
               CooldownFires 0]
              "http://files.example/b.docx" 2%nat eq_refl) as (_ & _ & H).
  exact H.
Defined.

Lemma enqueue_while_busy_waits_witness :
  queue (enqueue "http://files.example/b.docx" 2%nat
           (run [Enqueue "http://files.example/a.docx" 1%nat;
                 CallbackSettles 0 (Fulfilled "pdf"); Elapse 400]
              (init (R:=string) 0)))
  = [] ++ [mkEntry "http://files.example/b.docx" 2%nat 1%nat].
Proof.
  destruct (enqueue_while_busy_waits (R:=string) 0
              [Enqueue "http://files.example/a.docx" 1%nat;
               CallbackSettles 0 (Fulfilled "pdf"); Elapse 400]
              "http://files.example/b.docx" 2%nat ltac:(discriminate))
    as (_ & H & _).
  exact H.
Defined.

End QueueMore.

(** ** More about the endpoints *)
Module ServerMore.
Import Server ServerRuns.

Lemma count_app l1 l2 :
  count_active_sync (l1 ++ l2) = (count_active_sync l1 + count_active_sync l2)%nat.
Proof. unfold count_active_sync. by rewrite filter_app, length_app. Qed.

Lemma count_started q q' :
  count_active_sync (started q q')
  = length (drop (length (Queue.dispatched q)) (Queue.dispatched q')).
Proof.
  unfold started, count_active_sync.
  induction (drop _ _) as [|d l IH]; [done|].
  simpl map. rewrite filter_cons_True by done. simpl length. by rewrite IH.
Qed.

Lemma count_alter f i l c :
  l !! i = Some c →
  (count_active_sync (alter f i l) + (if active_sync c then 1 else 0)
   = count_active_sync l + (if active_sync (f c) then 1 else 0))%nat.
Proof.
  unfold count_active_sync. revert i.
  induction l as [|x l IH]; intros [|i] Hi; try done; cbn in Hi.
  - simplify_eq. change (alter f 0%nat (c :: l)) with (f c :: l).
    rewrite !filter_cons.
    destruct (active_sync c) eqn:E1, (active_sync (f c)) eqn:E2;
      repeat case_decide; try done; simpl length; lia.
  - change (alter f (S i) (x :: l)) with (x :: alter f i l).
    rewrite !filter_cons. specialize (IH i Hi).
    case_decide; simpl length; lia.
Qed.

(** The dispatches that [processQueue] adds are the callbacks it leaves
    running. *)
Lemma processQueue_new {R C} (s : Queue.State R C) :
  (Queue.processing s = false → Queue.suspended s = []) →
  (length (drop (length (Queue.dispatched s))
             (Queue.dispatched (Queue.processQueue s)))
   + length (Queue.in_flight s)
   = length (Queue.in_flight (Queue.processQueue s)))%nat.
Proof.
  intros H. unfold Queue.processQueue, Queue.in_flight.
  destruct (Queue.processing s) eqn:Hp; cbn.
  { by rewrite drop_all. }
  rewrite (H eq_refl).
  destruct (Queue.queue s) as [|request rest]; cbn.
  { rewrite bool_decide_eq_true_2 by done. by rewrite drop_all, (H eq_refl). }
  rewrite bool_decide_eq_false_2 by done. cbn. by rewrite drop_app_length.
Qed.

Lemma busy_when_suspended {R C} (s : Queue.State R C) :
  Queue.consistent s → Queue.processing s = false → Queue.suspended s = [].
Proof.
  intros Hc Hp. pose proof (Queue.c_phase s Hc) as Hph.
  unfold Queue.phase_ok in Hph.
  destruct (Queue.suspended s) as [|[e|e due] [|]]; try done;
    destruct Hph; congruence.
Qed.

Lemma with_queue_in_step q' s :
  in_step s →
  Queue.consistent q' → Queue.quiescent q' →
  (length (drop (length (Queue.dispatched (conversionQueue s)))
             (Queue.dispatched q'))
   + length (Queue.in_flight (conversionQueue s))
   = length (Queue.in_flight q'))%nat →
  in_step (with_queue q' s).
Proof.
  intros (Hc & Hq & Hn) Hc' Hq' Hnew. split; [done|]. split; [done|].
  change (count_active_sync (conversions s ++ started (conversionQueue s) q')
          = length (Queue.in_flight q')).
  rewrite count_app, count_started. lia.
Qed.

Lemma enqueue_in_step u s :
  in_step s → in_step (with_queue (Queue.enqueue u u (conversionQueue s)) s).
Proof.
  intros Hs. pose proof Hs as (Hc & Hq & Hn).
  destruct (QueueProofs.enqueue_consistent u u _ Hc) as [Hc' Hq'].
  apply with_queue_in_step; try done.
  unfold Queue.enqueue.
  match goal with
  | |- context [Queue.processQueue ?p] =>
      pose proof (processQueue_new p) as Hnew
  end.
  cbn in Hnew. apply Hnew. by apply busy_when_suspended.
Qed.

Lemma after_cooldown_in_step s :
  in_step s →
  in_step (with_queue (Queue.after_cooldown 0 (conversionQueue s)) s).
Proof.
  intros Hs. pose proof Hs as (Hc & Hq & Hn).
  destruct (QueueProofs.after_cooldown_consistent 0 _ Hc Hq) as [Hc' Hq'].
  apply with_queue_in_step; try done.
  unfold Queue.after_cooldown.
  pose proof (Queue.c_phase _ Hc) as Hph. unfold Queue.phase_ok in Hph.
  destruct (Queue.suspended (conversionQueue s)) as [|[e|e due] [|]] eqn:Hsus;
    try done; cbn [lookup list_lookup].
  - rewrite drop_all. cbn. lia.
  - rewrite drop_all. cbn. lia.
  - assert (Queue.in_flight (conversionQueue s) = []) as Hin.
    { unfold Queue.in_flight. by rewrite Hsus. }
    destruct (due <=? Queue.clock (conversionQueue s)); rewrite ?Hin.
    + match goal with
      | |- context [Queue.processQueue ?p] =>
          pose proof (processQueue_new p (λ _, eq_refl)) as Hnew
      end.
      exact Hnew.
    + by rewrite drop_all.
Qed.

(** A conversion that came through the queue and ends takes the queue's
    running callback with it. *)
Lemma finish_in_step i c outcome s :
  in_step s → conversions s !! i = Some c → phase c ≠ Finished →
  in_step (callback_done c outcome (set_phase i Finished s)).
Proof.
  intros (Hc & Hq & Hn) Hi Hph.
  pose proof (count_alter (λ c, mkConversion (via c) (url c) Finished) i
                (conversions s) c Hi) as Hcount.
  unfold callback_done. destruct (via c) eqn:Hvia.
  - (* Async: the queue is not involved *)
    split; [done|]. split; [done|].
    change (count_active_sync
              (alter (λ c, mkConversion (via c) (url c) Finished) i
                 (conversions s))
            = length (Queue.in_flight (conversionQueue s))).
    unfold active_sync in Hcount. rewrite Hvia in Hcount. cbn in Hcount. lia.
  - (* Sync *)
    assert (active_sync c = true) as Hact.
    { unfold active_sync. rewrite Hvia. by destruct (phase c). }
    rewrite Hact in Hcount. unfold active_sync in Hcount.
    cbn in Hcount. rewrite Hvia in Hcount.
    pose proof (Queue.c_phase _ Hc) as Hphase. unfold Queue.phase_ok in Hphase.
    assert (∃ e, Queue.suspended (conversionQueue s) = [Queue.AwaitCallback e])
      as [e Hsus].
    { unfold Queue.in_flight in Hn.
      destruct (Queue.suspended (conversionQueue s)) as [|[e|e due] [|]];
        try done; cbn in Hn; try lia. eauto. }
    assert (Queue.in_flight (conversionQueue s) = [e]) as Hin.
    { unfold Queue.in_flight. by rewrite Hsus. }
    rewrite Hin in Hn. cbn in Hn.
    pose proof (QueueProofs.after_callback_consistent 0 outcome _ Hc) as Hc'.
    pose proof (QueueProofs.after_callback_quiescent 0 outcome _ Hq) as Hq'.
    assert (Queue.dispatched (Queue.after_callback 0 outcome (conversionQueue s))
            = Queue.dispatched (conversionQueue s)
            ∧ Queue.in_flight (Queue.after_callback 0 outcome (conversionQueue s))
              = []) as [Hd' Hin'].
    { unfold Queue.after_callback, Queue.in_flight. rewrite Hsus. cbn.
      destruct outcome; unfold Queue.settle; cbn; by rewrite Hsus. }
    split; [done|]. split; [done|].
    change (count_active_sync
              (alter (λ c, mkConversion (via c) (url c) Finished) i
                 (conversions s)
               ++ started (conversionQueue s)
                    (Queue.after_callback 0 outcome (conversionQueue s)))
            = length (Queue.in_flight
                        (Queue.after_callback 0 outcome (conversionQueue s)))).
    rewrite count_app, count_started, Hd', Hin', drop_all. cbn. lia.
Qed.

Lemma deliver_in_step s ev : in_step s → in_step (deliver s ev).
Proof.
  intros Hs. pose proof Hs as (Hc & Hq & Hn).
  destruct ev as [[docxUrl orderId callbackUrl|docxUrl]|i reply|i result| |ms].
  - (* POST /api/convert *)
    unfold deliver, receive.
    destruct (falsy docxUrl || falsy orderId || falsy callbackUrl); [done|].
    destruct docxUrl as [u|]; [|done].
    destruct (Service.unusable_url u); [done|].
    split; [done|]. split; [done|].
    change (count_active_sync
              (conversions s ++ [mkConversion Async u Downloading])
            = length (Queue.in_flight (conversionQueue s))).
    rewrite count_app. unfold count_active_sync at 2.
    rewrite filter_cons_False by done. simpl length. lia.
  - (* POST /api/convert-sync *)
    unfold deliver, receive. destruct docxUrl as [u|]; [|done].
    destruct (falsy (Some u)); [done|]. by apply enqueue_in_step.
  - (* the download answers *)
    unfold deliver. destruct (conversions s !! i) as [c|] eqn:Hi; [|done].
    destruct (phase c) eqn:Hph; try (by destruct reply).
    destruct reply as [e|st txt body].
    { apply finish_in_step; [done..|]. by rewrite Hph. }
    destruct (response_ok st).
    + split; [done|]. split; [done|].
      pose proof (count_alter (λ c, mkConversion (via c) (url c) Converting) i
                    (conversions s) c Hi) as Hcount.
      change (count_active_sync
                (alter (λ c, mkConversion (via c) (url c) Converting) i
                   (conversions s))
              = length (Queue.in_flight (conversionQueue s))).
      unfold active_sync in Hcount. cbn in Hcount. rewrite Hph in Hcount.
      destruct (via c); lia.
    + apply finish_in_step; [done..|]. by rewrite Hph.
  - (* the child closes *)
    unfold deliver. destruct (conversions s !! i) as [c|] eqn:Hi; [|done].
    destruct (phase c) eqn:Hph; try done.
    apply finish_in_step; [done..|]. by rewrite Hph.
  - by apply after_cooldown_in_step.
  - destruct (QueueProofs.elapse_consistent ms _ Hc Hq) as [Hc' Hq'].
    split; [done|]. split; [done|]. exact Hn.
Qed.

Lemma run_in_step evs s : in_step s → in_step (run evs s).
Proof.
  revert s. induction evs as [|ev evs IH]; intros s Hs; [done|].
  change (run (ev :: evs) s) with (run evs (deliver s ev)).
  by apply IH, deliver_in_step.
Qed.

(** X21.  Conversions that come through [/api/convert-sync] never overlap
    one another: whatever requests arrive on either endpoint and however
    downloads, children and timers interleave, at most one of them is
    between the start of its download and the end of its LibreOffice
    process. *)
Theorem sync_conversions_never_overlap (t0 : Z) (evs : list Event) :
  (count_active_sync (conversions (run evs (init t0))) ≤ 1)%nat.
Proof.
  destruct (run_in_step evs (init t0)) as (Hc & _ & Hn).
  { split; [apply QueueProofs.init_consistent|].
    split; [apply QueueProofs.init_quiescent|done]. }
  rewrite Hn. by apply QueueProofs.in_flight_at_most_one.
Qed.

End ServerMore.

(** ** More about the earlier conversion path *)
Module LegacyMore.
Import Legacy LegacyParts SupervisorRuns ServiceMore.

Lemma convertDocxToPdf_eq env docxUrl orderId w :
  convertDocxToPdf env docxUrl orderId w
  = if Service.unusable_url docxUrl then (Threw InvalidDocxUrl, w)
    else try_catch
           (download_and_exec env docxUrl (input_path orderId (now w))
              (output_path orderId (now w)))
           (clean_both_and_rethrow (input_path orderId (now w))
              (output_path orderId (now w))) w.
Proof. unfold convertDocxToPdf. by destruct (Service.unusable_url docxUrl). Qed.

Lemma input_is_not_output orderId t : input_path orderId t ≠ output_path orderId t.
Proof.
  unfold input_path, output_path, path_join, tmpdir. intros H.
  simpl in H. discriminate H.
Qed.

Lemma remove_path_keeps_none p q (f : FS) :
  f !! q = None → remove_path p f !! q = None.
Proof.
  intros H. unfold remove_path. rewrite map_lookup_imap.
  destruct (decide (p = q)) as [->|Hne].
  - by rewrite lookup_delete_eq.
  - by rewrite lookup_delete_ne, H.
Qed.

Lemma rm_keeps_none p q w : fs w !! q = None → fs (rm p w).2 !! q = None.
Proof.
  intros H. unfold rm. destruct (fs w !! p) as [[c|names]|]; cbn; try done.
  - by apply remove_path_keeps_none.
  - apply remove_path_keeps_none.
    induction names as [|n names IH]; [done|]. cbn.
    by apply remove_path_keeps_none.
Qed.

Lemma clean_both_spec inputFile outputDir error w :
  is_directory (fs w) inputFile = false →
  ∃ w', clean_both_and_rethrow inputFile outputDir error w = (Threw error, w')
        ∧ fs w' !! outputDir = None ∧ fs w' !! inputFile = None.
Proof.
  intros Hdir. unfold clean_both_and_rethrow.
  assert (∃ w1, try_catch (unlink inputFile) (λ _, mret ()) w = (Returned (), w1)
                ∧ fs w1 !! inputFile = None) as (w1 & Hu & Hgone).
  { unfold try_catch, unlink, is_directory in *.
    destruct (fs w !! inputFile) as [[c|names]|] eqn:E; try done.
    - eexists. split; [reflexivity|]. cbn.
      apply SupervisorMore.remove_path_gone.
    - eexists. split; [reflexivity|]. done. }
  destruct (rm_spec outputDir w1) as (w2 & Hrm & Hgone2).
  pose proof (rm_keeps_none outputDir inputFile w1 Hgone) as Hkeep.
  rewrite Hrm in Hkeep. cbn in Hkeep.
  exists w2. unfold mbind, M_bind, throw.
  unfold try_catch at 1. unfold mbind, M_bind. rewrite Hu.
  unfold try_catch at 1. rewrite Hrm. done.
Qed.


Lemma staged_not_directory f p : staged f p → is_directory f p = false.
Proof. intros [c H]. unfold is_directory. by rewrite H. Qed.

Lemma add_entry_keeps_staged d n c (f : FS) q :
  staged f q → staged (add_entry d n c f) q.
Proof.
  intros [c0 H]. unfold add_entry.
  destruct (f !! d) as [[c1|names]|] eqn:Hd; try by exists c0.
  destruct (decide (path_join d n = q)) as [<-|Hne].
  { exists c. by rewrite lookup_insert_eq. }
  destruct (decide (d = q)) as [<-|Hne2]; [congruence|].
  exists c0. by rewrite !lookup_insert_ne.
Qed.

Lemma execAsync_spec env cmd w q :
  staged (fs w) q →
  (execAsync env cmd w).1 ≠ Pending ∧ staged (fs (execAsync env cmd w).2) q.
Proof.
  intros H. unfold execAsync.
  destruct (shell_reply env cmd) as [out err written|e]; cbn; [|done].
  split; [done|].
  assert (∀ f : FS, staged f q →
            staged (foldl (λ f '(dir, name, c), add_entry dir name c f) f written) q)
    as Hfold.
  { induction written as [|[[d n] c] written IH]; intros f Hf; [done|].
    cbn. by apply IH, add_entry_keeps_staged. }
  by apply Hfold.
Qed.

Lemma mkdir_spec env p w q :
  q ≠ p → staged (fs w) q →
  (mkdir env p w).1 ≠ Pending ∧ staged (fs (mkdir env p w).2) q.
Proof.
  intros Hne [c H]. unfold mkdir.
  destruct (fs w !! p) as [[c1|names]|]; cbn; try (split; [done|by exists c]).
  destruct (writable env p); cbn; (split; [done|]); exists c; [|done].
  by rewrite lookup_insert_ne.
Qed.

Lemma writeFile_spec env p data w :
  is_directory (fs w) p = false →
  match writeFile env p data w with
  | (Returned _, w') => staged (fs w') p
  | (Threw _, w') => fs w' = fs w
  | (Pending, _) => False
  end.
Proof.
  intros H. unfold writeFile, is_directory in *.
  destruct (parent_missing (fs w) p); [done|].
  destruct (writable env p); [|done].
  destruct (fs w !! p) as [[c|names]|]; try done; cbn;
    eexists; by rewrite lookup_insert_eq.
Qed.

(** What follows the shell command: with the input file staged, every way
    on ends with both artifacts gone, or throws with the input file still
    a file. *)
Lemma after_exec inputFile outputDir w :
  staged (fs w) inputFile →
  match (files ← readdir outputDir;
         match find (λ f, endsWith f ".pdf") files with
         | None => throw (LegacyPdfNotGenerated files)
         | Some pdfFile =>
             let pdfPath := path_join outputDir pdfFile in
             pdfBuffer ← readFile pdfPath;
             console_log (LogPdfRead (buffer_length pdfBuffer));;
             try_catch
               (unlink inputFile;; rm outputDir;; console_log LogCleanedUp)
               (λ cleanupError, console_log (LogCleanupWarning cleanupError));;
             mret pdfBuffer
         end) w with
  | (Returned _, w') => fs w' !! outputDir = None ∧ fs w' !! inputFile = None
  | (Threw _, w') => staged (fs w') inputFile
  | (Pending, _) => False
  end.
Proof.
  intros Hst.
  unfold mbind at 1, M_bind at 1, readdir.
  destruct (fs w !! outputDir) as [[c|files]|] eqn:Hd; try done.
  destruct (find _ files) as [pdfFile|]; [|done].
  cbn zeta. unfold mbind at 1, M_bind at 1, readFile.
  destruct (fs w !! path_join outputDir pdfFile) as [[b|names]|] eqn:Hp;
    try done.
  destruct Hst as [c Hc].
  assert (unlink inputFile (say (LogPdfRead (buffer_length b)) w)
          = (Returned (), set_fs (remove_path inputFile (fs w))
                            (say (LogPdfRead (buffer_length b)) w))) as Hu.
  { unfold unlink. cbn. by rewrite Hc. }
  set (w1 := set_fs (remove_path inputFile (fs w))
               (say (LogPdfRead (buffer_length b)) w)) in *.
  destruct (rm_spec outputDir w1) as (w2 & Hrm & Hgone).
  pose proof (rm_keeps_none outputDir inputFile w1
                (SupervisorMore.remove_path_gone inputFile (fs w))) as Hkeep.
  rewrite Hrm in Hkeep. cbn in Hkeep.
  unfold mbind, M_bind, console_log, try_catch, mret, M_ret.
  rewrite Hu, Hrm. done.
Qed.

Lemma download_and_exec_spec env docxUrl inputFile outputDir w :
  inputFile ≠ outputDir →
  is_directory (fs w) inputFile = false →
  match download_and_exec env docxUrl inputFile outputDir w with
  | (Returned _, w') => fs w' !! outputDir = None ∧ fs w' !! inputFile = None
  | (Threw _, w') => is_directory (fs w') inputFile = false
  | (Pending, _) => False
  end.
Proof.
  intros Hne Hdir. unfold download_and_exec.
  bind_step u w1 H1; [|done..]. injection H1 as <- <-.
  assert (fs (Service.fetch env (GET docxUrl) (say (LogDownloading docxUrl) w)).2
          = fs w
          ∧ (Service.fetch env (GET docxUrl) (say (LogDownloading docxUrl) w)).1
            ≠ Pending) as [Hf Hfp].
  { unfold Service.fetch. by destruct (fetch_reply env _). }
  bind_step r w2 H2; rewrite H2 in Hf, Hfp; cbn in Hf, Hfp;
    [|by rewrite Hf|done].
  destruct r as [[status statusText] buffer].
  destruct (response_ok status); cbn [negb]; [|cbn; by rewrite Hf].
  assert (is_directory (fs w2) inputFile = false) as Hdir2 by (by rewrite Hf).
  pose proof (writeFile_spec env inputFile buffer w2 Hdir2) as Hw.
  bind_step u1 w3 H3; rewrite H3 in Hw; [|by rewrite Hw|done].
  bind_step u2 w4 H4; [|done..]. injection H4 as <- <-.
  destruct (mkdir_spec env outputDir
              (say (LogDownloaded (buffer_length buffer)) w3) inputFile Hne Hw)
    as [Hmp Hm].
  bind_step u3 w5 H5; rewrite H5 in Hmp, Hm; cbn in Hmp, Hm;
    [|by apply staged_not_directory|done].
  cbn zeta.
  bind_step u4 w6 H6; [|done..]. injection H6 as <- <-.
  bind_step u5 w7 H7; [|done..]. injection H7 as <- <-.
  destruct (execAsync_spec env (command outputDir inputFile)
              (say (LogLegacyCommand (command outputDir inputFile))
                 (say LogRunning w5)) inputFile Hm) as [Hxp Hx].
  bind_step out w8 H8; rewrite H8 in Hxp, Hx; cbn in Hxp, Hx;
    [|by apply staged_not_directory|done].
  destruct out as [stdout stderr].
  assert (∀ (b : bool) (l : LogLine) (w0 : World),
            ∃ w0', (if b then console_log l else mret ()) w0 = (Returned (), w0')
                   ∧ fs w0' = fs w0) as Hlog.
  { intros [] l w0; eexists; split; reflexivity. }
  destruct (Hlog (negb (bool_decide (stderr = EmptyString))
                  && negb (includes stderr "INFO")) (LogStderr stderr) w8)
    as (w9 & Hl1 & Hfs1).
  bind_step u6 w9' H9; rewrite Hl1 in H9; [|done..]. injection H9 as <- <-.
  destruct (Hlog (negb (bool_decide (stdout = EmptyString)))
              (LogStdout stdout) w9) as (w10 & Hl2 & Hfs2).
  bind_step u7 w10' H10; rewrite Hl2 in H10; [|done..]. injection H10 as <- <-.
  assert (staged (fs w10) inputFile) as Hst by (by rewrite Hfs2, Hfs1).
  pose proof (after_exec inputFile outputDir w10 Hst) as Htail.
  match goal with
  | |- match ?c with _ => _ end => destruct c as [[b|e|] w11]
  end; [done| |done].
  by apply staged_not_directory.
Qed.

(** X22.  The earlier [convertDocxToPdf] leaves neither artifact behind:
    once it has come to an end after its check of the URL, by returning
    the PDF or by throwing at any point, neither the input file nor the
    output directory is on disk, unless a directory stood at the path of
    the input file beforehand. *)
Theorem legacy_conversion_cleans_up
    (env : Env) (docxUrl orderId : string) (w : World) :
  Service.unusable_url docxUrl = false →
  is_directory (fs w) (input_path orderId (now w)) = false →
  (convertDocxToPdf env docxUrl orderId w).1 ≠ Pending →
  exists_on_disk (fs (convertDocxToPdf env docxUrl orderId w).2)
    (input_path orderId (now w)) = false
  ∧ exists_on_disk (fs (convertDocxToPdf env docxUrl orderId w).2)
      (output_path orderId (now w)) = false.
Proof.
  intros Hurl Hdir. rewrite convertDocxToPdf_eq, Hurl.
  pose proof (download_and_exec_spec env docxUrl (input_path orderId (now w))
                (output_path orderId (now w)) w
                (input_is_not_output orderId (now w)) Hdir) as Hbody.
  unfold try_catch, exists_on_disk.
  destruct (download_and_exec env docxUrl _ _ w) as [[b|e|] w1]; [| |done].
  - intros _. cbn. destruct Hbody as [-> ->]. done.
  - destruct (clean_both_spec (input_path orderId (now w))
                (output_path orderId (now w)) e w1 Hbody)
      as (w' & -> & Ho & Hi). intros _. cbn. by rewrite Ho, Hi.
Qed.

Lemma legacy_conversion_cleans_up_witness :
  exists_on_disk
    (fs (convertDocxToPdf Scenario.converter_fails
           "http://files.example/a.docx" "o1" Scenario.w0).2)
    (input_path "o1" (now Scenario.w0)) = false.
Proof.
  exact (proj1 (legacy_conversion_cleans_up Scenario.converter_fails
                  "http://files.example/a.docx" "o1" Scenario.w0
                  eq_refl eq_refl ltac:(vm_compute; discriminate))).
Defined.

End LegacyMore.
